(** * Trello/Telegram tracker: change detection, pin rotation and date rules

    A shallow embedding of the state-diffing and reporting core of the bot:
    - [app/bot.py]        [check_for_completed_cards], [notify_member_assignments]
    - [app/storage.py]    the pinned-messages document and its operations
    - [app/handlers.py]   [_send_report_with_pin]
    - [app/trello_api.py] [is_card_overdue], [get_current_cards]
    - [app/reports.py]    [get_user_tasks], [generate_weekly_stats_report]

    Python dictionaries are finite maps ([gmap]), Python sets are finite sets
    ([gset]), JSON arrays are lists.  Sending a Telegram message is recorded
    as an element of the returned notification trace; the calls to the
    Telegram and Trello services are inputs of the functions (the snapshot
    returned by the board API, the outcome of each send / pin / unpin). *)

From Stdlib Require Import ZArith Ascii String List Bool Lia OrderedTypeEx.
From stdpp Require Import base option list gmap sets strings pretty.

Local Open Scope string_scope.
Local Open Scope Z_scope.

(** ** Strings: [str.lower], [in], [str.replace] *)

Module Str.

(** [str.lower] on the ASCII range; bytes outside [A-Z] are kept. *)
Definition lower_ascii (c : ascii) : ascii :=
  let n := nat_of_ascii c in
  if ((65 <=? n)%nat && (n <=? 90)%nat)%bool then ascii_of_nat (n + 32) else c.

Fixpoint lower (s : string) : string :=
  match s with
  | EmptyString => EmptyString
  | String c r => String (lower_ascii c) (lower r)
  end.

(** [needle in hay] for Python strings. *)
Fixpoint contains (needle hay : string) : bool :=
  if String.prefix needle hay then true
  else match hay with
       | EmptyString => false
       | String _ r => contains needle r
       end.

(** [s.replace("Z", "+00:00")]. *)
Fixpoint replace_Z (s : string) : string :=
  match s with
  | EmptyString => EmptyString
  | String c r =>
      if Ascii.eqb c "Z"%char then "+00:00" ++ replace_Z r
      else String c (replace_Z r)
  end.

(** [s.startswith(p)] and [s[4:]]. *)
Definition startswith (s p : string) : bool := String.prefix p s.

Definition drop4 (s : string) : string :=
  String.substring 4 (String.length s - 4) s.

End Str.

(** ** Board snapshots as the Trello API returns them *)

Record Member := {
  member_id : string;
  member_username : option string
}.

Record Card := {
  card_id : string;                  (* card["id"] *)
  idList : string;                   (* card["idList"] *)
  card_name : string;                (* card["name"] *)
  shortUrl : string;                 (* card["shortUrl"] *)
  card_members : list Member;        (* card.get("members", []) *)
  due : option string;               (* card.get("due") *)
  start : option string;             (* card.get("start") *)
  dateLastActivity : option string   (* card.get("dateLastActivity") *)
}.

Record TrelloList := {
  lst_id : string;
  lst_name : string
}.

(** What one board returns in a poll: [get_board_info], [get_board_cards],
    [get_board_lists]. *)
Record Snapshot := {
  snap_board_name : string;
  snap_cards : list Card;
  snap_lists : list TrelloList
}.

(** The part of [config] the rules read. *)
Record Config := {
  done_list_names : list string;
  in_progress_list_names : list string;
  trello_to_telegram_users : gmap string string
}.

(** [{lst["id"]: lst["name"] for lst in lists}]: a later entry with the same
    id replaces an earlier one. *)
Definition list_names_of (lists : list TrelloList) : gmap string string :=
  foldl (fun m l => <[lst_id l := lst_name l]> m) ∅ lists.

(** [list_names.get(card["idList"], "")]. *)
Definition list_name_of (list_names : gmap string string) (card : Card) : string :=
  default "" (list_names !! idList card).

(** [any(name.lower() in list_name.lower() for name in names)]. *)
Definition matches_any (names : list string) (list_name : string) : bool :=
  existsb (fun name => Str.contains (Str.lower name) (Str.lower list_name)) names.

(** [ReportGenerator._is_card_done]. *)
Definition _is_card_done (cfg : Config) (card : Card)
    (list_names : gmap string string) : bool :=
  matches_any (done_list_names cfg) (list_name_of list_names card).

(** The double-quote character of the HTML attribute in [format_card_link]. *)
Definition dquote : string := String (ascii_of_nat 34) EmptyString.

(** [format_card_link]. *)
Definition format_card_link (card : Card) : string :=
  "<a href=" ++ dquote ++ shortUrl card ++ dquote ++ ">"
    ++ card_name card ++ "</a>".

(** ** Change detector ([app/bot.py]) *)

(** One entry of [last_known_states]. *)
Record CardState := {
  completed : bool;
  list_id : string;
  members : list string
}.

(** A message handed to [send_message] for [REPORT_CHAT_ID].  The event
    keeps the values the text is formatted from. *)
Inductive Notification :=
| CardCompleted (board_name : string) (card : Card)
| MembersAssigned (board_name : string) (card : Card)
    (new_members : list Member) (tags_text : string).

(** ["%s_%s" % (board_id, card["id"])]. *)
Definition card_key (board_id cid : string) : string :=
  board_id ++ "_" ++ cid.

(** [config.trello_to_telegram_users.get(username, "@%s" % username)] with
    [username = member.get("username", "")]. *)
Definition telegram_tag (cfg : Config) (m : Member) : string :=
  let username := default "" (member_username m) in
  default ("@" ++ username) (trello_to_telegram_users cfg !! username).

(** [" ".join(tags)]. *)
Fixpoint join_space (tags : list string) : string :=
  match tags with
  | [] => ""
  | [t] => t
  | t :: r => t ++ " " ++ join_space r
  end.

(** [notify_member_assignments]: the members of the card whose id is among
    the new ids; nothing is sent when that list is empty. *)
Definition notify_member_assignments (cfg : Config) (card : Card)
    (board_name : string) (new_member_ids : gset string) : list Notification :=
  let new_members :=
    filter (fun m => member_id m ∈ new_member_ids) (card_members card) in
  match new_members with
  | [] => []
  | _ => [MembersAssigned board_name card new_members
            (join_space (telegram_tag cfg <$> new_members))]
  end.

(** [set(m["id"] for m in card.get("members", []))]. *)
Definition current_member_ids (card : Card) : gset string :=
  list_to_set (member_id <$> card_members card).

(** The body of the loop over [current_cards] in
    [check_for_completed_cards]: the new [last_known_states] and the
    messages sent for this card. *)
Definition process_card (cfg : Config) (board_id board_name : string)
    (list_names : gmap string string) (states : gmap string CardState)
    (card : Card) : gmap string CardState * list Notification :=
  let is_completed := _is_card_done cfg card list_names in
  let key := card_key board_id (card_id card) in
  if is_completed then
    match states !! key with
    | None =>
        (<[key := {| completed := is_completed;
                     list_id := idList card;
                     members := member_id <$> card_members card |}]> states,
         [])
    | Some st =>
        if negb (completed st) then
          (<[key := {| completed := true;
                       list_id := idList card;
                       members := members st |}]> states,
           [CardCompleted board_name card])
        else (states, [])
    end
  else
    let current_members := current_member_ids card in
    let sent :=
      match states !! key with
      | Some st =>
          let previous_members : gset string := list_to_set (members st) in
          let new_members := current_members ∖ previous_members in
          if decide (new_members = ∅) then []
          else notify_member_assignments cfg card board_name new_members
      | None => []
      end in
    (<[key := {| completed := false;
                 list_id := idList card;
                 members := elements current_members |}]> states,
     sent).

(** The loop over the cards of one board, in snapshot order. *)
Fixpoint process_cards (cfg : Config) (board_id board_name : string)
    (list_names : gmap string string) (states : gmap string CardState)
    (cards : list Card) : gmap string CardState * list Notification :=
  match cards with
  | [] => (states, [])
  | card :: rest =>
      let '(states1, sent1) :=
        process_card cfg board_id board_name list_names states card in
      let '(states2, sent2) :=
        process_cards cfg board_id board_name list_names states1 rest in
      (states2, (sent1 ++ sent2)%list)
  end.

(** One board of [check_for_completed_cards]. *)
Definition check_board (cfg : Config) (board_id : string) (snap : Snapshot)
    (states : gmap string CardState) : gmap string CardState * list Notification :=
  process_cards cfg board_id (snap_board_name snap)
    (list_names_of (snap_lists snap)) states (snap_cards snap).

(** [check_for_completed_cards]: every configured board in turn.  [None]
    stands for a board whose requests raised; the handler logs and goes on
    to the next board with the states untouched. *)
Fixpoint check_for_completed_cards (cfg : Config)
    (boards : list (string * option Snapshot))
    (states : gmap string CardState) : gmap string CardState * list Notification :=
  match boards with
  | [] => (states, [])
  | (board_id, None) :: rest => check_for_completed_cards cfg rest states
  | (board_id, Some snap) :: rest =>
      let '(states1, sent1) := check_board cfg board_id snap states in
      let '(states2, sent2) := check_for_completed_cards cfg rest states1 in
      (states2, (sent1 ++ sent2)%list)
  end.

(** The completion messages of a trace that are about card [cid]. *)
Definition is_completion_of (cid : string) (n : Notification) : bool :=
  match n with
  | CardCompleted _ card => bool_decide (card_id card = cid)
  | MembersAssigned _ _ _ _ => false
  end.

Definition completions_of (cid : string) (sent : list Notification) : list Notification :=
  List.filter (is_completion_of cid) sent.

(** ** Pinned-messages document ([app/storage.py]) *)

(** One element of [data["messages"]] in [bot_pinned_messages.json]. *)
Record PinRecord := {
  chat_id : string;
  message_id : Z;
  pinned_at : string;
  message_url : string
}.

(** The document is its ["messages"] array.  Reading returns what the last
    write stored: the file operations themselves are taken to succeed. *)
Definition same_pin (c : string) (mid : Z) (msg : PinRecord) : bool :=
  bool_decide (chat_id msg = c) && (message_id msg =? mid).

(** [Storage.add_pinned_message]; [now_iso] is [datetime.now().isoformat()]. *)
Definition add_pinned_message (data : list PinRecord) (c : string) (mid : Z)
    (url : string) (now_iso : string) : list PinRecord :=
  let existing := List.filter (same_pin c mid) data in
  match existing with
  | _ :: _ => data
  | [] => (data ++ [{| chat_id := c; message_id := mid;
                       pinned_at := now_iso; message_url := url |}])%list
  end.

(** [Storage.get_stored_pinned_messages]. *)
Definition get_stored_pinned_messages (data : list PinRecord) (c : string)
    : list PinRecord :=
  List.filter (fun msg => bool_decide (chat_id msg = c)) data.

(** [Storage.remove_pinned_message]. *)
Definition remove_pinned_message (data : list PinRecord) (c : string) (mid : Z)
    : list PinRecord :=
  List.filter (fun msg => negb (same_pin c mid msg)) data.

(** [max(stored, key=lambda x: x.get("pinned_at", ""))]: the first record
    whose key no other record exceeds. *)
Fixpoint latest_from (best : PinRecord) (rest : list PinRecord) : PinRecord :=
  match rest with
  | [] => best
  | x :: r =>
      if String.ltb (pinned_at best) (pinned_at x) then latest_from x r
      else latest_from best r
  end.

(** [Storage.get_last_report_url]. *)
Definition get_last_report_url (data : list PinRecord) (c : string) : string :=
  match get_stored_pinned_messages data c with
  | [] => ""
  | first :: rest => message_url (latest_from first rest)
  end.

(** ** Pin rotation ([app/handlers.py]) *)

(** What the Telegram side answers during one [_send_report_with_pin]:
    whether the i-th unpin attempt of the loop succeeds, the id of the sent
    message ([None] when [send_message] gave up), whether pinning succeeds;
    and the clock reading stored as [pinned_at]. *)
Record PublishOutcome := {
  unpin_ok : nat -> bool;
  sent_id : option Z;
  pin_ok : bool;
  stamp : string
}.

(** The loop over [stored_pinned]: the snapshot taken before the loop is
    walked, and every successful unpin removes the matching records from the
    document as it is then. *)
Fixpoint unpin_stored (c : string) (ok : nat -> bool) (i : nat)
    (stored : list PinRecord) (data : list PinRecord) : list PinRecord :=
  match stored with
  | [] => data
  | msg_data :: rest =>
      let data' :=
        if ok i then remove_pinned_message data c (message_id msg_data)
        else data in
      unpin_stored c ok (S i) rest data'
  end.

(** The text handed to [send_message]: the report, followed by the link to
    the previous report when one is stored.  The link markup is not spelt
    out; [previous_link url] stands for the appended suffix. *)
Definition report_text (previous_link : string -> string) (data : list PinRecord)
    (c : string) (message : string) : string :=
  let previous_report_url := get_last_report_url data c in
  if bool_decide (previous_report_url = "") then message
  else message ++ previous_link previous_report_url.

(** ["https://t.me/c/%s/%d" % (url_chat_id, message_id)]. *)
Definition message_url_of (c : string) (mid : Z) : string :=
  let url_chat_id := if Str.startswith c "-100" then Str.drop4 c else c in
  "https://t.me/c/" ++ url_chat_id ++ "/" ++ pretty mid.

(** [CommandHandlers._send_report_with_pin]: the document afterwards and the
    returned message id. *)
Definition _send_report_with_pin (data : list PinRecord) (c : string)
    (o : PublishOutcome) : list PinRecord * option Z :=
  let stored_pinned := get_stored_pinned_messages data c in
  let data1 := unpin_stored c (unpin_ok o) 0 stored_pinned data in
  match sent_id o with
  | None => (data1, None)
  | Some mid =>
      let url := message_url_of c mid in
      if pin_ok o then (add_pinned_message data1 c mid url (stamp o), Some mid)
      else (data1, Some mid)
  end.

(** A sequence of publications for one chat. *)
Definition publish_all (data : list PinRecord) (c : string)
    (calls : list PublishOutcome) : list PinRecord :=
  foldl (fun d o => fst (_send_report_with_pin d c o)) data calls.

(** ** Dates ([datetime], [timedelta]) *)

(** A [datetime]: the wall-clock fields as microseconds since
    0001-01-01T00:00:00, and the UTC offset of its [tzinfo] in microseconds
    ([None] for a naive value). *)
Record datetime := {
  wall : Z;
  tzinfo : option Z
}.

(** The system clock: the instant in UTC and the offset of the local zone. *)
Record Clock := {
  utc_now : Z;
  local_offset : Z
}.

Definition usec_per_day : Z := 86400 * 1000000.

(** [datetime.now(tz)]; [datetime.now()] is [datetime_now clk None]. *)
Definition datetime_now (clk : Clock) (tz : option Z) : datetime :=
  match tz with
  | None => {| wall := utc_now clk + local_offset clk; tzinfo := None |}
  | Some off => {| wall := utc_now clk + off; tzinfo := Some off |}
  end.

(** [dt.replace(tzinfo=None)]. *)
Definition strip_tz (dt : datetime) : datetime :=
  {| wall := wall dt; tzinfo := None |}.

(** [(a - b).days] for naive values: a [timedelta] keeps the floor of the
    difference in days. *)
Definition days_between (a b : datetime) : Z :=
  (wall a - wall b) / usec_per_day.

(** [a - timedelta(days=n)]. *)
Definition minus_days (a : datetime) (n : Z) : datetime :=
  {| wall := wall a - n * usec_per_day; tzinfo := tzinfo a |}.

(** Truth value of [card.get(field)]: [None] and the empty string are
    false. *)
Definition present (field : option string) : option string :=
  match field with
  | Some s => if bool_decide (s = "") then None else Some s
  | None => None
  end.

(** Outcome of code that may raise. *)
Inductive exn := ValueError.

Inductive result (A : Type) :=
| Ok (a : A)
| Raise (e : exn).
Arguments Ok {A} a.
Arguments Raise {A} e.

(** *** A reader for the timestamps Trello emits

    [YYYY-MM-DD], a separator, [HH:MM:SS], an optional fraction of three or
    six digits and an optional [+HH:MM] / [-HH:MM] offset.  The rules below
    take [datetime.fromisoformat] as a parameter; this reader instantiates
    it for concrete evaluations. *)
Module Iso.

Definition digit (c : ascii) : option Z :=
  let n := nat_of_ascii c in
  if ((48 <=? n)%nat && (n <=? 57)%nat)%bool then Some (Z.of_nat n - 48) else None.

(** Exactly [n] decimal digits. *)
Fixpoint digits (n : nat) (acc : Z) (s : string) : option (Z * string) :=
  match n with
  | O => Some (acc, s)
  | S k =>
      match s with
      | String c r =>
          match digit c with
          | Some d => digits k (10 * acc + d) r
          | None => None
          end
      | EmptyString => None
      end
  end.

Definition expect (c : ascii) (s : string) : option string :=
  match s with
  | String c' r => if Ascii.eqb c c' then Some r else None
  | EmptyString => None
  end.

Definition is_leap (y : Z) : bool :=
  ((y mod 4 =? 0) && negb (y mod 100 =? 0)) || (y mod 400 =? 0).

Definition days_in_month (y m : Z) : Z :=
  if m =? 2 then (if is_leap y then 29 else 28)
  else if (m =? 4) || (m =? 6) || (m =? 9) || (m =? 11) then 30 else 31.

(** Days in the months before [m] in year [y]. *)
Definition days_before_month (y m : Z) : Z :=
  let cum := nth (Z.to_nat (m - 1))
               [0; 31; 59; 90; 120; 151; 181; 212; 243; 273; 304; 334] 0 in
  if (2 <? m) && is_leap y then cum + 1 else cum.

(** Days from 0001-01-01 to the given date. *)
Definition days_from_civil (y m d : Z) : Z :=
  let p := y - 1 in
  p * 365 + p / 4 - p / 100 + p / 400 + days_before_month y m + (d - 1).

(** The fraction: nothing, [.fff] or [.ffffff]; in microseconds. *)
Definition fraction (s : string) : option (Z * string) :=
  match s with
  | String "." r =>
      match digits 6 0 r with
      | Some res => Some res
      | None =>
          match digits 3 0 r with
          | Some (ms, r') => Some (ms * 1000, r')
          | None => None
          end
      end
  | _ => Some (0, s)
  end.

(** The offset: nothing (naive), or a sign and [HH:MM]. *)
Definition offset (s : string) : option (option Z) :=
  match s with
  | EmptyString => Some None
  | String sign r =>
      let sg := if Ascii.eqb sign "+" then Some 1
                else if Ascii.eqb sign "-" then Some (-1) else None in
      match sg with
      | None => None
      | Some k =>
          match digits 2 0 r with
          | Some (hh, r1) =>
              match expect ":" r1 with
              | Some r2 =>
                  match digits 2 0 r2 with
                  | Some (mm, EmptyString) =>
                      if (hh <? 24) && (mm <? 60)
                      then Some (Some (k * (hh * 3600 + mm * 60) * 1000000))
                      else None
                  | _ => None
                  end
              | None => None
              end
          | None => None
          end
      end
  end.

Definition fromisoformat (s : string) : option datetime :=
  '(y, s) ← digits 4 0 s;
  s ← expect "-" s;
  '(m, s) ← digits 2 0 s;
  s ← expect "-" s;
  '(d, s) ← digits 2 0 s;
  s ← (match s with String _ r => Some r | EmptyString => None end);
  '(hh, s) ← digits 2 0 s;
  s ← expect ":" s;
  '(mi, s) ← digits 2 0 s;
  s ← expect ":" s;
  '(ss, s) ← digits 2 0 s;
  '(us, s) ← fraction s;
  tz ← offset s;
  if (1 <=? y) && (1 <=? m) && (m <=? 12) && (1 <=? d)
     && (d <=? days_in_month y m) && (hh <? 24) && (mi <? 60) && (ss <? 60)
  then Some {| wall := (days_from_civil y m d * 86400
                        + hh * 3600 + mi * 60 + ss) * 1000000 + us;
               tzinfo := tz |}
  else None.

End Iso.

(** ** Date rules ([app/trello_api.py], [app/reports.py]) *)

Section DateRules.

(** [datetime.fromisoformat]: [None] when it raises [ValueError]. *)
Variable fromisoformat : string -> option datetime.
Variable cfg : Config.

(** [datetime.fromisoformat(s.replace("Z", "+00:00"))]. *)
Definition parse_date (s : string) : option datetime :=
  fromisoformat (Str.replace_Z s).

(** [AsyncTrelloAPI.is_card_overdue]; the parse is not guarded. *)
Definition is_card_overdue (clk : Clock) (card : Card) : result bool :=
  match present (due card) with
  | None => Ok false
  | Some s =>
      match parse_date s with
      | None => Raise ValueError
      | Some due_date =>
          Ok (wall due_date <? wall (datetime_now clk (tzinfo due_date)))
      end
  end.

(** Where [get_user_tasks] puts a card of the user. *)
Inductive Category := Skipped | Overdue | Current | Future | Other.

(** The date check of [get_user_tasks] for a card in an in-progress list:
    [should_be_current].  Both parses are guarded by
    [except (ValueError, TypeError): pass]. *)
Definition should_be_current (now : datetime) (card : Card) : bool :=
  match present (start card) with
  | Some s =>
      match parse_date s with
      | Some start_dt => negb (wall now <? wall (strip_tz start_dt))
      | None => true
      end
  | None =>
      match present (due card) with
      | Some s =>
          match parse_date s with
          | Some due_dt => negb (3 <? days_between (strip_tz due_dt) now)
          | None => true
          end
      | None => true
      end
  end.

(** The body of the loop over [user_cards] in [get_user_tasks].  [clk1] is
    the clock read inside [is_card_overdue], [clk2] the one read for
    [now = datetime.now()]. *)
Definition categorize_user_card (list_names : gmap string string)
    (clk1 clk2 : Clock) (card : Card) : result Category :=
  let list_name := list_name_of list_names card in
  if matches_any (done_list_names cfg) list_name then Ok Skipped
  else
    match is_card_overdue clk1 card with
    | Raise e => Raise e
    | Ok true => Ok Overdue
    | Ok false =>
        if matches_any (in_progress_list_names cfg) list_name then
          if should_be_current (datetime_now clk2 None) card
          then Ok Current else Ok Future
        else Ok Other
    end.

(** The loop over [user_cards] of one board: the cards appended to
    [overdue_tasks] and [current_tasks].  When a card raises, the handler
    around the board logs the error and the remaining cards of the board are
    not looked at; what was appended before stays.  [clocks i] are the clock
    readings for the i-th card. *)
Fixpoint categorize_user_cards (list_names : gmap string string)
    (clocks : nat -> Clock * Clock) (i : nat) (user_cards : list Card)
    : list Card * list Card :=
  match user_cards with
  | [] => ([], [])
  | card :: rest =>
      match categorize_user_card list_names (fst (clocks i)) (snd (clocks i)) card with
      | Raise _ => ([], [])
      | Ok cat =>
          let '(overdue_tasks, current_tasks) :=
            categorize_user_cards list_names clocks (S i) rest in
          match cat with
          | Overdue => (card :: overdue_tasks, current_tasks)
          | Current => (overdue_tasks, card :: current_tasks)
          | _ => (overdue_tasks, current_tasks)
          end
      end
  end.

(** The body of the loop in [AsyncTrelloAPI.get_current_cards]: whether the
    card is appended to [current_cards].  [now] is the [datetime.now()] read
    before the loop, [clk1] the clock read inside [is_card_overdue].  No
    parse is guarded here. *)
Definition is_current_card (list_names : gmap string string)
    (clk1 : Clock) (now : datetime) (card : Card) : result bool :=
  match is_card_overdue clk1 card with
  | Raise e => Raise e
  | Ok true => Ok false
  | Ok false =>
      match present (start card) with
      | Some s =>
          match parse_date s with
          | None => Raise ValueError
          | Some start_dt =>
              if wall (strip_tz start_dt) <=? wall now then
                match present (due card) with
                | Some d =>
                    match parse_date d with
                    | None => Raise ValueError
                    | Some due_dt => Ok (wall now <? wall (strip_tz due_dt))
                    end
                | None => Ok true
                end
              else Ok false
          end
      | None =>
          match present (due card) with
          | Some _ => Ok false
          | None =>
              Ok (matches_any (in_progress_list_names cfg)
                    (list_name_of list_names card))
          end
      end
  end.

(** The test of [generate_weekly_stats_report] that appends a card to
    [completed_this_week]; [today] is [datetime.now()].  A failed parse is
    caught and the card skipped. *)
Definition completed_this_week (list_names : gmap string string)
    (today : datetime) (card : Card) : bool :=
  let week_start := minus_days today 7 in
  let is_done := matches_any (done_list_names cfg) (list_name_of list_names card) in
  if is_done then
    match present (dateLastActivity card) with
    | Some s =>
        match parse_date s with
        | Some dt => wall week_start <=? wall (strip_tz dt)
        | None => false
        end
    | None => false
    end
  else false.

(** The cards of a board counted as completed this week. *)
Definition completed_cards_this_week (list_names : gmap string string)
    (today : datetime) (all_cards : list Card) : list Card :=
  List.filter (completed_this_week list_names today) all_cards.

End DateRules.

(** Successive polls of one board: [check_board] on each snapshot in turn,
    the states carried from one poll to the next. *)
Fixpoint poll_board (cfg : Config) (board_id : string) (snaps : list Snapshot)
    (states : gmap string CardState) : gmap string CardState * list Notification :=
  match snaps with
  | [] => (states, [])
  | snap :: rest =>
      let '(states1, sent1) := check_board cfg board_id snap states in
      let '(states2, sent2) := poll_board cfg board_id rest states1 in
      (states2, (sent1 ++ sent2)%list)
  end.

(** Every observation of card [cid] in the snapshot lies in a done list. *)
Definition stays_done (cfg : Config) (cid : string) (snap : Snapshot) : Prop :=
  ∀ card, card ∈ snap_cards snap → card_id card = cid →
    _is_card_done cfg card (list_names_of (snap_lists snap)) = true.


(** ** Sending with retries ([AsyncTrelloBot.send_message]) *)

(** What the loop does besides returning: calls to the Telegram client and
    five-second sleeps. *)
Inductive SendAction :=
| Attempt (attempt : nat)
| Sleep5.

(** [for attempt in range(max_retries)] from [attempt] on, [remaining]
    iterations left.  [try i] is the answer of the Telegram client to the
    call of iteration [i]: the id of the sent message, or [None] when the
    call raises.  After a failed call the loop sleeps unless it was the last
    iteration. *)
Fixpoint send_loop (try : nat -> option Z) (max_retries attempt remaining : nat)
    : option Z * list SendAction :=
  match remaining with
  | O => (None, [])
  | S r =>
      match try attempt with
      | Some result => (Some result, [Attempt attempt])
      | None =>
          let '(res, acts) := send_loop try max_retries (S attempt) r in
          if (attempt <? max_retries - 1)%nat
          then (res, Attempt attempt :: Sleep5 :: acts)
          else (res, Attempt attempt :: acts)
      end
  end.

(** [send_message]: the returned message ([None] after the last failure)
    and the actions taken. *)
Definition send_message (try : nat -> option Z) (max_retries : nat)
    : option Z * list SendAction :=
  send_loop try max_retries 0 max_retries.

Definition is_sleep (a : SendAction) : bool :=
  match a with Sleep5 => true | Attempt _ => false end.

Definition attempts_of (acts : list SendAction) : nat :=
  length (List.filter (λ a, negb (is_sleep a)) acts).

Definition sleeps_of (acts : list SendAction) : nat :=
  length (List.filter is_sleep acts).

(** ** Long-running tracking ([update_card_progress_tracking]) *)

(** One entry of [card_states.json]. *)
Record ProgressEntry := {
  started_at : string;
  pe_board_id : string;
  pe_card_name : string
}.

(** Whether the card lies in an in-progress list. *)
Definition is_in_progress (cfg : Config) (list_names : gmap string string)
    (card : Card) : bool :=
  matches_any (in_progress_list_names cfg) (list_name_of list_names card).

(** The body of the loop over the cards of a board; [now_iso] is
    [current_time.isoformat()]. *)
Definition track_card (cfg : Config) (board_id : string)
    (list_names : gmap string string) (now_iso : string)
    (card_states : gmap string ProgressEntry) (card : Card)
    : gmap string ProgressEntry :=
  let key := card_key board_id (card_id card) in
  if is_in_progress cfg list_names card then
    match card_states !! key with
    | None => <[key := {| started_at := now_iso; pe_board_id := board_id;
                          pe_card_name := card_name card |}]> card_states
    | Some _ => card_states
    end
  else
    match card_states !! key with
    | Some _ => delete key card_states
    | None => card_states
    end.

(** One board of [update_card_progress_tracking]. *)
Definition track_board (cfg : Config) (board_id : string) (now_iso : string)
    (snap : Snapshot) (card_states : gmap string ProgressEntry)
    : gmap string ProgressEntry :=
  foldl (track_card cfg board_id (list_names_of (snap_lists snap)) now_iso)
    card_states (snap_cards snap).

(** [update_card_progress_tracking]: the document saved at the end.  The
    time is read once, before the loop over the boards; [None] is a board
    whose requests raised. *)
Definition update_card_progress_tracking (cfg : Config) (now_iso : string)
    (boards : list (string * option Snapshot))
    (card_states : gmap string ProgressEntry) : gmap string ProgressEntry :=
  foldl (λ states b,
           match b.2 with
           | Some snap => track_board cfg b.1 now_iso snap states
           | None => states
           end) card_states boards.

(** Successive updates of one board, each with its time. *)
Definition track_polls (cfg : Config) (board_id : string)
    (polls : list (string * Snapshot))
    (card_states : gmap string ProgressEntry) : gmap string ProgressEntry :=
  foldl (λ states p, track_board cfg board_id p.1 p.2 states) card_states polls.

(** Every observation of card [cid] in the snapshot lies in an in-progress
    list. *)
Definition stays_in_progress (cfg : Config) (cid : string) (snap : Snapshot) : Prop :=
  ∀ card, card ∈ snap_cards snap → card_id card = cid →
    is_in_progress cfg (list_names_of (snap_lists snap)) card = true.

(** What [is_card_long_running] does. *)
Inductive LongRunning :=
| LongRunningIs (b : bool)
| LongRunningValueError      (* [started_at] is not a timestamp *)
| LongRunningTypeError.      (* [started_at] carries a zone *)

(** [ReportGenerator.is_card_long_running]; [now] is [datetime.now()]. *)
Definition is_card_long_running (fromisoformat : string -> option datetime)
    (now : datetime) (board_id cid : string)
    (card_states : gmap string ProgressEntry) : LongRunning :=
  match card_states !! card_key board_id cid with
  | Some e =>
      match fromisoformat (started_at e) with
      | None => LongRunningValueError
      | Some t =>
          match tzinfo t with
          | Some _ => LongRunningTypeError
          | None => LongRunningIs (3 <=? days_between now t)
          end
      end
  | None => LongRunningIs false
  end.

(** ** Daily digest lists ([get_current_cards],
    [generate_enhanced_daily_report]) *)

Section DailyLists.

Variable fromisoformat : string -> option datetime.
Variable cfg : Config.

(** [[card for card in cards if self.is_card_overdue(card)]]; [clocks i] is
    the clock read for the i-th card.  The first card that raises ends the
    comprehension. *)
Fixpoint overdue_cards_of (clocks : nat -> Clock) (i : nat) (cards : list Card)
    : result (list Card) :=
  match cards with
  | [] => Ok []
  | card :: rest =>
      match is_card_overdue fromisoformat (clocks i) card with
      | Raise e => Raise e
      | Ok b =>
          match overdue_cards_of clocks (S i) rest with
          | Raise e => Raise e
          | Ok l => Ok (if b then card :: l else l)
          end
      end
  end.

(** [AsyncTrelloAPI.get_current_cards] on the fetched cards; [lists_at i]
    are the list names fetched for the i-th card when it has no dates. *)
Fixpoint get_current_cards (clocks : nat -> Clock) (now : datetime)
    (lists_at : nat -> gmap string string) (i : nat) (cards : list Card)
    : result (list Card) :=
  match cards with
  | [] => Ok []
  | card :: rest =>
      match is_current_card fromisoformat cfg (lists_at i) (clocks i) now card with
      | Raise e => Raise e
      | Ok b =>
          match get_current_cards clocks now lists_at (S i) rest with
          | Raise e => Raise e
          | Ok l => Ok (if b then card :: l else l)
          end
      end
  end.

(** The lists of one board in [generate_enhanced_daily_report]:
    [overdue_cards] from the cards fetched by the report, [current_cards]
    from the cards fetched by [get_current_cards], both without the cards in
    done lists.  [clk2] is the clock read for [now] in
    [get_current_cards]. *)
Definition daily_board_lists (list_names : gmap string string)
    (all_cards : list Card) (clocks1 : nat -> Clock)
    (cards2 : list Card) (clk2 : Clock) (clocks2 : nat -> Clock)
    (lists_at : nat -> gmap string string)
    : result (list Card * list Card) :=
  let active_cards :=
    List.filter (λ card, negb (_is_card_done cfg card list_names)) all_cards in
  match overdue_cards_of clocks1 0 active_cards with
  | Raise e => Raise e
  | Ok overdue_cards =>
      match get_current_cards clocks2 (datetime_now clk2 None) lists_at 0 cards2 with
      | Raise e => Raise e
      | Ok current_cards_result =>
          Ok (overdue_cards,
              List.filter (λ card, negb (_is_card_done cfg card list_names))
                current_cards_result)
      end
  end.

End DailyLists.

(** ** Clearing the stored pins ([_handle_clear_stored_command_async]) *)

(** The document after the command sent from chat [c]; only the configured
    peer chat is served. *)
Definition clear_stored (peer_id : string) (data : list PinRecord) (c : string)
    : list PinRecord :=
  if bool_decide (c = peer_id)
  then List.filter (λ msg, negb (bool_decide (chat_id msg = c))) data
  else data.

(** The key under which the store tells records apart. *)
Definition pin_key (msg : PinRecord) : string * Z := (chat_id msg, message_id msg).

(** ** Properties stated on the detector *)

(** The entry of a card agrees with its observation: completed for a card
    in a done list; otherwise not completed, with the observed list id and
    member ids. *)
Definition reflects (cfg : Config) (board_id : string)
    (list_names : gmap string string) (states : gmap string CardState)
    (card : Card) : Prop :=
  ∃ st, states !! card_key board_id (card_id card) = Some st ∧
    if _is_card_done cfg card list_names then completed st = true
    else st = {| completed := false; list_id := idList card;
                 members := elements (current_member_ids card) |}.

(** No underscore in a board id. *)
Fixpoint underscore_free (s : string) : bool :=
  match s with
  | EmptyString => true
  | String c r => negb (Ascii.eqb c "_") && underscore_free r
  end.

(** The card with its start field taken away. *)
Definition without_start (card : Card) : Card :=
  {| card_id := card_id card; idList := idList card; card_name := card_name card;
     shortUrl := shortUrl card; card_members := card_members card;
     due := due card; start := None;
     dateLastActivity := dateLastActivity card |}.

(** The card a message is about. *)
Definition message_card (n : Notification) : Card :=
  match n with
  | CardCompleted _ card => card
  | MembersAssigned _ card _ _ => card
  end.

(** Every byte of the string is below 128. *)
Fixpoint is_ascii_string (s : string) : bool :=
  match s with
  | EmptyString => true
  | String c r => (nat_of_ascii c <? 128)%nat && is_ascii_string r
  end.
(** ** Sample boards, cards and clocks

    Concrete inputs on which the rules are evaluated. *)

Module Sample.

Definition cfg : Config := {|
  done_list_names := ["Done"];
  in_progress_list_names := ["In Progress"; "Doing"];
  trello_to_telegram_users := {[ "alice" := "@alice_tg" ]}
|}.

Definition lists : list TrelloList :=
  [ {| lst_id := "L-doing"; lst_name := "Doing" |};
    {| lst_id := "L-done"; lst_name := "Done ok" |};
    {| lst_id := "L-archive"; lst_name := "Done (archive)" |} ].

Definition alice : Member :=
  {| member_id := "m-alice"; member_username := Some "alice" |}.

Definition bob : Member :=
  {| member_id := "m-bob"; member_username := Some "bob" |}.

(** A card with the given list, members and date fields. *)
Definition mk_card (l : string) (ms : list Member)
    (d s a : option string) : Card :=
  {| card_id := "c1"; idList := l; card_name := "Write report";
     shortUrl := "https://trello.com/c/abc"; card_members := ms;
     due := d; start := s; dateLastActivity := a |}.

Definition card_doing : Card := mk_card "L-doing" [] None None None.
Definition card_doing_alice : Card := mk_card "L-doing" [alice] None None None.
Definition card_done : Card := mk_card "L-done" [] None None None.
Definition card_archived : Card := mk_card "L-archive" [] None None None.

Definition snap_of (cards : list Card) : Snapshot :=
  {| snap_board_name := "Team"; snap_cards := cards; snap_lists := lists |}.

Definition state_doing : CardState :=
  {| completed := false; list_id := "L-doing"; members := [] |}.

Definition state_done : CardState :=
  {| completed := true; list_id := "L-done"; members := [] |}.

End Sample.

(** Outcomes of a publication. *)
Module SamplePins.

(** Everything succeeds; the sent message gets id [mid]. *)
Definition all_ok (mid : Z) (t : string) : PublishOutcome :=
  {| unpin_ok := λ _, true; sent_id := Some mid; pin_ok := true; stamp := t |}.

(** Telegram refuses to unpin; sending and pinning succeed. *)
Definition unpin_fails (mid : Z) (t : string) : PublishOutcome :=
  {| unpin_ok := λ _, false; sent_id := Some mid; pin_ok := true; stamp := t |}.

Definition chat : string := "-1001234".

Definition rec10 : PinRecord :=
  {| chat_id := chat; message_id := 10; pinned_at := "2024-01-01T08:00:00";
     message_url := "https://t.me/c/1234/10" |}.

Definition rec11 : PinRecord :=
  {| chat_id := chat; message_id := 11; pinned_at := "2024-01-02T08:00:00";
     message_url := "https://t.me/c/1234/11" |}.

End SamplePins.

(** Cards with dates, and clocks. *)
Module SampleDates.

(** The wall-clock value of a timestamp. *)
Definition at_time (s : string) : Z :=
  default 0 (wall <$> Iso.fromisoformat s).

(** A host whose local zone is UTC, at the given UTC time. *)
Definition utc_host (s : string) : Clock :=
  {| utc_now := at_time s; local_offset := 0 |}.

(** A host five hours behind UTC, at the given UTC time. *)
Definition west_host (s : string) : Clock :=
  {| utc_now := at_time s; local_offset := - (5 * 3600 * 1000000) |}.

(** A host five hours ahead of UTC, at the given UTC time. *)
Definition east_host (s : string) : Clock :=
  {| utc_now := at_time s; local_offset := 5 * 3600 * 1000000 |}.


(** In progress, no start, due the next day. *)
Definition card_due_1d : Card :=
  Sample.mk_card "L-doing" [] (Some "2024-01-03T00:00:00.000Z") None None.

(** In progress, no start, due ten days later. *)
Definition card_due_10d : Card :=
  Sample.mk_card "L-doing" [] (Some "2024-01-12T00:00:00.000Z") None None.

(** In progress, with a due field that is not a timestamp. *)
Definition card_bad_due : Card :=
  Sample.mk_card "L-doing" [] (Some "next friday") None None.

(** Done, last touched at the given time. *)
Definition card_done_at (a : string) : Card :=
  Sample.mk_card "L-done" [] None None (Some a).

(** The same clock reading for every card of a loop. *)
Definition frozen (clk : Clock) : nat -> Clock * Clock := λ _, (clk, clk).

End SampleDates.

(** Two different cards of one board. *)
Module SampleBoard.

Definition card2_doing_bob : Card :=
  {| card_id := "c2"; idList := "L-doing"; card_name := "Fix bug";
     shortUrl := "https://trello.com/c/def"; card_members := [Sample.bob];
     due := None; start := None; dateLastActivity := None |}.

Definition snap : Snapshot :=
  Sample.snap_of [Sample.card_done; card2_doing_bob].

Definition boards : list (string * option Snapshot) :=
  [("b0", None); ("b1", Some snap)].

End SampleBoard.

(** Answers of the Telegram client to successive send attempts. *)
Module SampleSend.

(** The first two calls raise, the third returns message 42. *)
Definition third_time (i : nat) : option Z :=
  if (i <? 2)%nat then None else Some 42.

(** Every call raises. *)
Definition never (i : nat) : option Z := None.

End SampleSend.

(** Progress tracking. *)
Module SampleTrack.

Definition snap_doing : Snapshot := Sample.snap_of [Sample.card_doing].
Definition snap_done : Snapshot := Sample.snap_of [Sample.card_done].

Definition entry (t : string) : ProgressEntry :=
  {| started_at := t; pe_board_id := "b1"; pe_card_name := "Write report" |}.

End SampleTrack.

(** Cards for the daily lists. *)
Module SampleDaily.

(** In progress, due the day before 2024-01-02. *)
Definition card_overdue : Card :=
  {| card_id := "c3"; idList := "L-doing"; card_name := "Late";
     shortUrl := "https://trello.com/c/ghi"; card_members := [];
     due := Some "2024-01-01T00:00:00.000Z"; start := None;
     dateLastActivity := None |}.

(** In progress, started on 2024-01-01, due on 2024-01-10. *)
Definition card_started : Card :=
  {| card_id := "c4"; idList := "L-doing"; card_name := "Running";
     shortUrl := "https://trello.com/c/jkl"; card_members := [];
     due := Some "2024-01-10T00:00:00.000Z";
     start := Some "2024-01-01T00:00:00.000Z";
     dateLastActivity := None |}.

(** In progress, with a start field that is not a timestamp, due in ten
    days. *)
Definition card_bad_start : Card :=
  Sample.mk_card "L-doing" [] (Some "2024-01-12T00:00:00.000Z")
    (Some "soon") None.

Definition clk : Clock := SampleDates.utc_host "2024-01-02T00:00:00".

End SampleDaily.

(** * Properties of the change detector *)

Section Detector.

Variable cfg : Config.
Variables board_id board_name : string.

Lemma card_key_inj (b c1 c2 : string) : card_key b c1 = card_key b c2 → c1 = c2.
Proof.
  unfold card_key. induction b as [|a b IH]; simpl.
  - intros H. by injection H.
  - intros H. injection H as H. by apply IH.
Qed.

Lemma card_key_ne (c1 c2 : string) :
  c1 ≠ c2 → card_key board_id c1 ≠ card_key board_id c2.
Proof. intros Hne Heq. by apply Hne, (card_key_inj board_id). Qed.

(** A step on another card leaves the entry of card [cid] alone. *)
Lemma process_card_other_state list_names states card cid :
  card_id card ≠ cid →
  (process_card cfg board_id board_name list_names states card).1
    !! card_key board_id cid = states !! card_key board_id cid.
Proof.
  intros Hne. apply card_key_ne in Hne. unfold process_card.
  destruct (_is_card_done cfg card list_names); simpl.
  - destruct (states !! card_key board_id (card_id card)) as [st|] eqn:E; simpl.
    + destruct (completed st); simpl; [done|]. by rewrite lookup_insert_ne.
    + by rewrite lookup_insert_ne.
  - by rewrite lookup_insert_ne.
Qed.

Lemma notify_no_completion card new_ids cid :
  completions_of cid (notify_member_assignments cfg card board_name new_ids) = [].
Proof.
  unfold notify_member_assignments.
  by destruct (filter _ (card_members card)).
Qed.

(** A step on another card sends no completion message about [cid]. *)
Lemma process_card_other_sent list_names states card cid :
  card_id card ≠ cid →
  completions_of cid
    (process_card cfg board_id board_name list_names states card).2 = [].
Proof.
  intros Hne. unfold process_card.
  destruct (_is_card_done cfg card list_names); simpl.
  - destruct (states !! card_key board_id (card_id card)) as [st|]; simpl; [|done].
    destruct (completed st); simpl; [done|].
    by rewrite bool_decide_eq_false_2.
  - destruct (states !! card_key board_id (card_id card)) as [st|]; simpl; [|done].
    case_decide; [done|]. apply notify_no_completion.
Qed.

(** A done observation of a card whose entry is completed changes nothing. *)
Lemma process_card_completed_done list_names states card st :
  states !! card_key board_id (card_id card) = Some st →
  completed st = true →
  _is_card_done cfg card list_names = true →
  process_card cfg board_id board_name list_names states card = (states, []).
Proof.
  intros Hst Hc Hd. unfold process_card. by rewrite Hd, Hst, Hc.
Qed.

Lemma completions_of_app cid (a b : list Notification) :
  completions_of cid (a ++ b) = (completions_of cid a ++ completions_of cid b)%list.
Proof. apply List.filter_app. Qed.

(** Once the entry of [cid] is completed, a run over cards whose
    observations of [cid] are all done keeps the entry and sends no
    completion message about [cid]. *)
Lemma process_cards_completed_stable list_names cards cid : ∀ states st,
  states !! card_key board_id cid = Some st →
  completed st = true →
  (∀ card, card ∈ cards → card_id card = cid →
     _is_card_done cfg card list_names = true) →
  (process_cards cfg board_id board_name list_names states cards).1
     !! card_key board_id cid = Some st
  ∧ completions_of cid
      (process_cards cfg board_id board_name list_names states cards).2 = [].
Proof.
  induction cards as [|card rest IH]; intros states st Hst Hc Hdone; simpl.
  - done.
  - destruct (process_card cfg board_id board_name list_names states card)
      as [states1 sent1] eqn:E1.
    destruct (process_cards cfg board_id board_name list_names states1 rest)
      as [states2 sent2] eqn:E2.
    simpl. rewrite completions_of_app.
    assert (Hrest : ∀ c, c ∈ rest → card_id c = cid →
              _is_card_done cfg c list_names = true).
    { intros c Hin. apply Hdone. by right. }
    destruct (decide (card_id card = cid)) as [Heq|Hne].
    + assert (Hd : _is_card_done cfg card list_names = true).
      { apply Hdone; [by left|done]. }
      rewrite <- Heq in Hst.
      rewrite (process_card_completed_done list_names states card st Hst Hc Hd) in E1.
      injection E1 as <- <-. rewrite Heq in Hst.
      destruct (IH states st Hst Hc Hrest) as [H1 H2].
      rewrite E2 in H1, H2. simpl in *. by rewrite H2.
    + pose proof (process_card_other_state list_names states card cid Hne) as Hs.
      pose proof (process_card_other_sent list_names states card cid Hne) as He.
      rewrite E1 in Hs, He. simpl in *. rewrite Hst in Hs.
      destruct (IH states1 st Hs Hc Hrest) as [H1 H2].
      rewrite E2 in H1, H2. simpl in *. by rewrite He, H2.
Qed.

(** A run over cards that observes [cid] in a done list, all its
    observations being done, from a not-completed entry: one completion
    message about [cid], and the entry ends completed. *)
Lemma process_cards_first_completion list_names cards cid : ∀ states st,
  states !! card_key board_id cid = Some st →
  completed st = false →
  (∃ card, card ∈ cards ∧ card_id card = cid) →
  (∀ card, card ∈ cards → card_id card = cid →
     _is_card_done cfg card list_names = true) →
  (∃ card, card ∈ cards ∧ card_id card = cid ∧
     completions_of cid
       (process_cards cfg board_id board_name list_names states cards).2
       = [CardCompleted board_name card])
  ∧ (∃ st', (process_cards cfg board_id board_name list_names states cards).1
              !! card_key board_id cid = Some st' ∧ completed st' = true).
Proof.
  induction cards as [|card rest IH]; intros states st Hst Hc Hex Hdone; simpl.
  - destruct Hex as (c & Hin & _). by apply elem_of_nil in Hin.
  - destruct (process_card cfg board_id board_name list_names states card)
      as [states1 sent1] eqn:E1.
    destruct (process_cards cfg board_id board_name list_names states1 rest)
      as [states2 sent2] eqn:E2.
    simpl. rewrite completions_of_app.
    assert (Hrest : ∀ c, c ∈ rest → card_id c = cid →
              _is_card_done cfg c list_names = true).
    { intros c Hin. apply Hdone. by right. }
    destruct (decide (card_id card = cid)) as [Heq|Hne].
    + assert (Hd : _is_card_done cfg card list_names = true).
      { apply Hdone; [by left|done]. }
      unfold process_card in E1. rewrite Hd, Heq, Hst, Hc in E1. simpl in E1.
      injection E1 as <- <-.
      set (st1 := {| completed := true; list_id := idList card;
                     members := members st |}) in *.
      assert (Hs1 : <[card_key board_id cid := st1]> states
                      !! card_key board_id cid = Some st1)
        by apply lookup_insert_eq.
      destruct (process_cards_completed_stable list_names rest cid _ st1
                  Hs1 eq_refl Hrest) as [H1 H2].
      rewrite E2 in H1, H2. simpl in *. split.
      * exists card. split; [by left|]. split; [done|].
        rewrite H2. simpl. by rewrite bool_decide_eq_true_2.
      * by exists st1.
    + pose proof (process_card_other_state list_names states card cid Hne) as Hs.
      pose proof (process_card_other_sent list_names states card cid Hne) as He.
      rewrite E1 in Hs, He. simpl in *. rewrite Hst in Hs.
      assert (Hex' : ∃ c, c ∈ rest ∧ card_id c = cid).
      { destruct Hex as (c & Hin & Hid). exists c. split; [|done].
        apply elem_of_cons in Hin as [->|Hin]; [done|done]. }
      destruct (IH states1 st Hs Hc Hex' Hrest) as [(c & Hin & Hid & H1) H2].
      rewrite E2 in H1, H2. simpl in *. split.
      * exists c. split; [by right|]. split; [done|]. by rewrite He.
      * done.
Qed.

End Detector.

(** Later polls of the board keep a completed entry and stay silent about
    [cid] as long as the card stays in a done list. *)
Lemma poll_board_completed_stable cfg board_id snaps cid : ∀ states st,
  states !! card_key board_id cid = Some st →
  completed st = true →
  Forall (stays_done cfg cid) snaps →
  (poll_board cfg board_id snaps states).1 !! card_key board_id cid = Some st
  ∧ completions_of cid (poll_board cfg board_id snaps states).2 = [].
Proof.
  induction snaps as [|snap rest IH]; intros states st Hst Hc Hall; simpl.
  - done.
  - apply Forall_cons in Hall as [Hsnap Hall].
    destruct (process_cards_completed_stable cfg board_id (snap_board_name snap)
                (list_names_of (snap_lists snap)) (snap_cards snap) cid
                states st Hst Hc Hsnap) as [H1 H2].
    fold (check_board cfg board_id snap states) in H1, H2.
    destruct (check_board cfg board_id snap states) as [states1 sent1].
    simpl in H1, H2.
    destruct (IH states1 st H1 Hc Hall) as [H3 H4].
    destruct (poll_board cfg board_id rest states1) as [states2 sent2].
    simpl in *. by rewrite completions_of_app, H2, H4.
Qed.

(** C1.  A card whose stored entry is not completed and which the poll
    observes in a done list gets exactly one [CardCompleted] message in that
    poll; in every later poll of the board in which it is still in a done
    list, no further [CardCompleted] message is sent for it. *)
Theorem completion_fires_exactly_once cfg board_id snap later states cid st :
  states !! card_key board_id cid = Some st →
  completed st = false →
  (∃ card, card ∈ snap_cards snap ∧ card_id card = cid) →
  stays_done cfg cid snap →
  Forall (stays_done cfg cid) later →
  (∃ card, card ∈ snap_cards snap ∧ card_id card = cid ∧
     completions_of cid (check_board cfg board_id snap states).2
       = [CardCompleted (snap_board_name snap) card])
  ∧ (∃ st', (check_board cfg board_id snap states).1
              !! card_key board_id cid = Some st' ∧ completed st' = true)
  ∧ completions_of cid
      (poll_board cfg board_id later (check_board cfg board_id snap states).1).2
      = [].
Proof.
  intros Hst Hc Hex Hdone Hlater.
  destruct (process_cards_first_completion cfg board_id (snap_board_name snap)
              (list_names_of (snap_lists snap)) (snap_cards snap) cid
              states st Hst Hc Hex Hdone) as [H1 (st' & H2 & H3)].
  fold (check_board cfg board_id snap states) in H1, H2.
  split; [done|]. split; [by exists st'|].
  by destruct (poll_board_completed_stable cfg board_id later cid _ st' H2 H3 Hlater).
Qed.

Lemma completion_fires_exactly_once_witness :
  completions_of "c1"
    (check_board Sample.cfg "b1" (Sample.snap_of [Sample.card_done])
       {[ card_key "b1" "c1" := Sample.state_doing ]}).2
  = [CardCompleted "Team" Sample.card_done]
  ∧ completions_of "c1"
      (poll_board Sample.cfg "b1"
         [Sample.snap_of [Sample.card_done]; Sample.snap_of [Sample.card_archived]]
         (check_board Sample.cfg "b1" (Sample.snap_of [Sample.card_done])
            {[ card_key "b1" "c1" := Sample.state_doing ]}).1).2 = [].
Proof.
  assert (Hd : ∀ c, c ∈ [Sample.card_done; Sample.card_archived] →
            _is_card_done Sample.cfg c (list_names_of Sample.lists) = true).
  { intros c Hc. repeat (apply elem_of_cons in Hc as [->|Hc]; [by vm_compute|]).
    by apply elem_of_nil in Hc. }
  destruct (completion_fires_exactly_once Sample.cfg "b1"
              (Sample.snap_of [Sample.card_done])
              [Sample.snap_of [Sample.card_done]; Sample.snap_of [Sample.card_archived]]
              {[ card_key "b1" "c1" := Sample.state_doing ]} "c1" Sample.state_doing)
    as [(card & Hin & _ & H1) [_ H2]].
  - apply lookup_singleton_eq.
  - reflexivity.
  - exists Sample.card_done. split; [by left|done].
  - intros c Hc _. apply Hd. apply list_elem_of_singleton in Hc as ->. by left.
  - repeat constructor; intros c Hc _; apply Hd;
      apply list_elem_of_singleton in Hc as ->; [by left|by right; left].
  - apply list_elem_of_singleton in Hin as ->. done.
Defined.

(** The ids of the members kept by [notify_member_assignments] are the new
    ids, when these are ids of members of the card. *)
Lemma filter_new_member_ids (ms : list Member) (new_ids : gset string) :
  new_ids ⊆ list_to_set (member_id <$> ms) →
  list_to_set (member_id <$> filter (λ m, member_id m ∈ new_ids) ms) = new_ids.
Proof.
  intros Hsub. apply set_eq. intros x.
  rewrite elem_of_list_to_set, list_elem_of_fmap. split.
  - intros (m & -> & Hm). by apply list_elem_of_filter in Hm as [? _].
  - intros Hx. pose proof (Hsub x Hx) as Hin.
    apply elem_of_list_to_set, list_elem_of_fmap in Hin as (m & -> & Hm).
    exists m. split; [done|]. by apply list_elem_of_filter.
Qed.

(** What [notify_member_assignments] sends for a non-empty set of new ids
    taken from the card's members. *)
Lemma notify_member_assignments_sends cfg card board_name (new_ids : gset string) :
  new_ids ⊆ current_member_ids card →
  new_ids ≠ ∅ →
  ∃ ms tags,
    notify_member_assignments cfg card board_name new_ids
      = [MembersAssigned board_name card ms tags]
    ∧ list_to_set (member_id <$> ms) = new_ids.
Proof.
  intros Hsub Hne. unfold notify_member_assignments.
  pose proof (filter_new_member_ids (card_members card) new_ids Hsub) as Hids.
  destruct (filter _ (card_members card)) as [|m ms] eqn:E.
  - simpl in Hids. by destruct Hne.
  - by eexists _, _.
Qed.

(** C2.  A card seen for the first time (no entry under its key) while in a
    done list: nothing is sent, and the entry is seeded as completed with the
    observed list id and member ids.  The whole poll of the board, and every
    later poll in which the card stays done, is silent about it too. *)
Theorem first_seen_done_is_silent cfg board_id board_name list_names states card :
  states !! card_key board_id (card_id card) = None →
  _is_card_done cfg card list_names = true →
  process_card cfg board_id board_name list_names states card
  = (<[card_key board_id (card_id card) :=
         {| completed := true; list_id := idList card;
            members := member_id <$> card_members card |}]> states, [])
  ∧ ∀ rest later,
      (∀ c, c ∈ rest → card_id c = card_id card →
         _is_card_done cfg c list_names = true) →
      Forall (stays_done cfg (card_id card)) later →
      let poll := process_cards cfg board_id board_name list_names states
                    (card :: rest) in
      completions_of (card_id card) poll.2 = []
      ∧ completions_of (card_id card)
          (poll_board cfg board_id later poll.1).2 = [].
Proof.
  intros Hnone Hd.
  assert (Hstep : process_card cfg board_id board_name list_names states card
    = (<[card_key board_id (card_id card) :=
         {| completed := true; list_id := idList card;
            members := member_id <$> card_members card |}]> states, [])).
  { unfold process_card. by rewrite Hd, Hnone. }
  split; [done|]. intros rest later Hrest Hlater. simpl. rewrite Hstep.
  set (st := {| completed := true; list_id := idList card;
                members := member_id <$> card_members card |}).
  set (states1 := <[card_key board_id (card_id card) := st]> states).
  assert (Hs1 : states1 !! card_key board_id (card_id card) = Some st)
    by apply lookup_insert_eq.
  destruct (process_cards_completed_stable cfg board_id board_name list_names
              rest (card_id card) states1 st Hs1 eq_refl Hrest) as [H1 H2].
  destruct (process_cards cfg board_id board_name list_names states1 rest)
    as [states2 sent2].
  simpl in *. split; [done|].
  by destruct (poll_board_completed_stable cfg board_id later (card_id card)
                 states2 st H1 eq_refl Hlater).
Qed.

Lemma first_seen_done_is_silent_witness :
  process_card Sample.cfg "b1" "Team" (list_names_of Sample.lists) ∅
    Sample.card_done
  = (<[card_key "b1" "c1" := Sample.state_done]> ∅, []).
Proof.
  apply (first_seen_done_is_silent Sample.cfg "b1" "Team"
           (list_names_of Sample.lists) ∅ Sample.card_done).
  - apply lookup_empty.
  - by vm_compute.
Defined.

(** Filters that agree on the elements of the list give the same list. *)
Lemma filter_agree {A} (P Q : A → Prop) `{∀ x, Decision (P x)}
    `{∀ x, Decision (Q x)} (l : list A) :
  (∀ x, x ∈ l → (P x ↔ Q x)) → filter P l = filter Q l.
Proof.
  induction l as [|a l IH]; intros Hpq; [done|].
  rewrite !filter_cons.
  assert (Ha : P a ↔ Q a) by (apply Hpq; by left).
  rewrite IH by (intros x Hx; apply Hpq; by right).
  destruct (decide (P a)), (decide (Q a)); tauto || done.
Qed.

(** The members that [notify_member_assignments] names, when it is handed
    the observed ids minus the stored ones, are the members of the card
    whose id is not stored. *)
Lemma new_members_are_the_unstored (card : Card) (stored : list string) :
  filter (λ m, member_id m ∈ current_member_ids card ∖ list_to_set stored)
    (card_members card)
  = filter (λ m, member_id m ∉ stored) (card_members card).
Proof.
  apply filter_agree. intros m Hm.
  rewrite elem_of_difference, elem_of_list_to_set.
  unfold current_member_ids. rewrite elem_of_list_to_set. split.
  - by intros [_ ?].
  - intros Hn. split; [|done]. by apply list_elem_of_fmap_2.
Qed.

(** No member is kept when every id is stored. *)
Lemma filter_unstored_nil (ms : list Member) (stored : list string) :
  (∀ m, m ∈ ms → member_id m ∈ stored) →
  filter (λ m, member_id m ∉ stored) ms = [].
Proof.
  induction ms as [|m ms IH]; intros Hsub; [done|].
  rewrite filter_cons.
  destruct (decide (member_id m ∉ stored)) as [Hn|_].
  - destruct Hn. apply Hsub. by left.
  - apply IH. intros m' Hm'. apply Hsub. by right.
Qed.

(** C4.  A card with a stored, not completed entry that is observed still
    not done.  Let [added] be the members of the card whose id is not among
    the stored member ids.  A [MembersAssigned] message is sent exactly when
    [added] is not empty, that is when the observed ids minus the stored
    ones are not empty; the message names exactly the members [added], whose
    ids are the set difference; and an observation whose members only shrink
    or stay the same sends nothing. *)
Theorem members_assigned_iff_new_ids cfg board_id board_name list_names states card st :
  states !! card_key board_id (card_id card) = Some st →
  completed st = false →
  _is_card_done cfg card list_names = false →
  let added := filter (λ m, member_id m ∉ members st) (card_members card) in
  let sent := (process_card cfg board_id board_name list_names states card).2 in
  (added ≠ [] →
     sent = [MembersAssigned board_name card added
               (join_space (telegram_tag cfg <$> added))])
  ∧ (added = [] → sent = [])
  ∧ (list_to_set (member_id <$> added) : gset string)
    = list_to_set (member_id <$> card_members card) ∖ list_to_set (members st)
  ∧ ((∀ m, m ∈ card_members card → member_id m ∈ members st) → sent = []).
Proof.
  intros Hst Hc Hd added sent.
  set (new_ids := current_member_ids card ∖ list_to_set (members st)).
  assert (Hsent : sent = if decide (new_ids = ∅) then []
                         else notify_member_assignments cfg card board_name new_ids).
  { unfold sent, process_card. by rewrite Hd, Hst. }
  assert (Hfil : filter (λ m, member_id m ∈ new_ids) (card_members card) = added)
    by apply new_members_are_the_unstored.
  assert (Hids : (list_to_set (member_id <$> added) : gset string) = new_ids).
  { rewrite <- Hfil. apply filter_new_member_ids.
    intros x Hx. by apply elem_of_difference in Hx as [? _]. }
  assert (Hempty : added = [] → sent = []).
  { intros Ha. rewrite Hsent. rewrite decide_True; [done|].
    rewrite <- Hids, Ha. done. }
  split; [|split; [done|split; [done|]]].
  - intros Hne. rewrite Hsent. rewrite decide_False.
    + unfold notify_member_assignments. rewrite Hfil.
      by destruct added.
    + intros He. rewrite <- Hids in He. destruct added as [|m ms]; [done|].
      assert (Hm : member_id m ∈ (list_to_set (member_id <$> m :: ms) : gset string))
        by (rewrite elem_of_list_to_set, fmap_cons; by left).
      rewrite He in Hm. by apply not_elem_of_empty in Hm.
  - intros Hsub. apply Hempty. by apply filter_unstored_nil.
Qed.

Lemma members_assigned_iff_new_ids_witness :
  (process_card Sample.cfg "b1" "Team" (list_names_of Sample.lists)
     {[ card_key "b1" "c1" := Sample.state_doing ]} Sample.card_doing_alice).2
  = [MembersAssigned "Team" Sample.card_doing_alice [Sample.alice] "@alice_tg"].
Proof.
  refine (proj1 (members_assigned_iff_new_ids Sample.cfg "b1" "Team"
           (list_names_of Sample.lists)
           {[ card_key "b1" "c1" := Sample.state_doing ]} Sample.card_doing_alice
           Sample.state_doing _ _ _) _).
  - apply lookup_singleton_eq.
  - reflexivity.
  - by vm_compute.
  - by vm_compute.
Defined.

(** C8 (as the code has it).  A card whose stored entry is completed and
    which is observed still in a done list: nothing is sent and
    [last_known_states] is left as it is; the stored list id is the one
    recorded earlier, not the observed one. *)
Theorem completed_still_done_unchanged cfg board_id board_name list_names states card st :
  states !! card_key board_id (card_id card) = Some st →
  completed st = true →
  _is_card_done cfg card list_names = true →
  let r := process_card cfg board_id board_name list_names states card in
  r = (states, [])
  ∧ list_id <$> r.1 !! card_key board_id (card_id card) = Some (list_id st).
Proof.
  intros Hst Hc Hd r.
  assert (Hr : r = (states, [])).
  { unfold r, process_card. by rewrite Hd, Hst, Hc. }
  rewrite Hr. simpl. by rewrite Hst.
Qed.

Lemma completed_still_done_unchanged_witness :
  process_card Sample.cfg "b1" "Team" (list_names_of Sample.lists)
    {[ card_key "b1" "c1" := Sample.state_done ]} Sample.card_archived
  = ({[ card_key "b1" "c1" := Sample.state_done ]}, []).
Proof.
  apply (completed_still_done_unchanged Sample.cfg "b1" "Team"
           (list_names_of Sample.lists)
           {[ card_key "b1" "c1" := Sample.state_done ]} Sample.card_archived
           Sample.state_done).
  - apply lookup_singleton_eq.
  - reflexivity.
  - by vm_compute.
Defined.

(** C8 as claimed fails: the card moved from one done list to another, its
    entry is completed, and after the step the stored list id is still the
    old one. *)
Lemma list_id_refresh_counterexample :
  let states : gmap string CardState :=
    {[ card_key "b1" "c1" := Sample.state_done ]} in
  let r := process_card Sample.cfg "b1" "Team" (list_names_of Sample.lists)
             states Sample.card_archived in
  states !! card_key "b1" "c1" = Some Sample.state_done
  ∧ completed Sample.state_done = true
  ∧ _is_card_done Sample.cfg Sample.card_archived (list_names_of Sample.lists) = true
  ∧ list_id <$> r.1 !! card_key "b1" "c1" ≠ Some (idList Sample.card_archived).
Proof.
  intros states r. split; [apply lookup_singleton_eq|].
  split; [reflexivity|]. split; [by vm_compute|].
  assert (Hr : list_id <$> r.1 !! card_key "b1" "c1" = Some "L-done").
  { by vm_compute. }
  rewrite Hr. intros H. by injection H.
Qed.

(** C9 (as the code has it).  A card whose stored entry is completed and
    which is observed in a list that is not a done list: no [CardCompleted]
    message is sent; a [MembersAssigned] message is sent exactly when
    observed member ids are missing from the stored ones; the entry is
    overwritten with not completed, the observed list id and the observed
    member ids; and a later observation of the card in a done list sends a
    [CardCompleted] message again. *)
Theorem reopened_card_resets_entry cfg board_id board_name list_names states card st :
  states !! card_key board_id (card_id card) = Some st →
  completed st = true →
  _is_card_done cfg card list_names = false →
  let r := process_card cfg board_id board_name list_names states card in
  r.1 = <[card_key board_id (card_id card) :=
            {| completed := false; list_id := idList card;
               members := elements (current_member_ids card) |}]> states
  ∧ (list_to_set (elements (current_member_ids card)) : gset string)
      = current_member_ids card
  ∧ (∀ cid, completions_of cid r.2 = [])
  ∧ (r.2 = [] ↔ current_member_ids card ∖ list_to_set (members st) = ∅)
  ∧ ∀ board_name' list_names' card',
      card_id card' = card_id card →
      _is_card_done cfg card' list_names' = true →
      (process_card cfg board_id board_name' list_names' r.1 card').2
      = [CardCompleted board_name' card'].
Proof.
  intros Hst Hc Hd r.
  set (new_ids := current_member_ids card ∖ list_to_set (members st)).
  assert (Hr : r = (<[card_key board_id (card_id card) :=
            {| completed := false; list_id := idList card;
               members := elements (current_member_ids card) |}]> states,
            if decide (new_ids = ∅) then []
            else notify_member_assignments cfg card board_name new_ids)).
  { unfold r, process_card. by rewrite Hd, Hst. }
  rewrite Hr. simpl. split; [done|]. split; [apply list_to_set_elements_L|].
  split; [|split].
  - intros cid. case_decide; [done|]. apply notify_no_completion.
  - case_decide as Hn; [done|]. split; [|done].
    destruct (notify_member_assignments_sends cfg card board_name new_ids)
      as (ms & tags & -> & _); [|done|done].
    intros x Hx. by apply elem_of_difference in Hx as [? _].
  - intros bn' ln' card' Hid Hd'. unfold process_card.
    by rewrite Hd', Hid, lookup_insert_eq.
Qed.

Lemma reopened_card_resets_entry_witness :
  (process_card Sample.cfg "b1" "Team" (list_names_of Sample.lists)
     {[ card_key "b1" "c1" := Sample.state_done ]} Sample.card_doing).1
  = <[card_key "b1" "c1" := Sample.state_doing]>
      {[ card_key "b1" "c1" := Sample.state_done ]}.
Proof.
  refine (proj1 (reopened_card_resets_entry Sample.cfg "b1" "Team"
           (list_names_of Sample.lists)
           {[ card_key "b1" "c1" := Sample.state_done ]} Sample.card_doing
           Sample.state_done _ _ _)).
  - apply lookup_singleton_eq.
  - reflexivity.
  - by vm_compute.
Defined.

(** C9 as claimed fails: the entry is completed (seeded without members),
    the card is observed in a list that is not done with a member, and a
    [MembersAssigned] message is sent at that poll. *)
Lemma reopened_card_event_counterexample :
  let states : gmap string CardState :=
    {[ card_key "b1" "c1" := Sample.state_done ]} in
  states !! card_key "b1" "c1" = Some Sample.state_done
  ∧ completed Sample.state_done = true
  ∧ _is_card_done Sample.cfg Sample.card_doing_alice
      (list_names_of Sample.lists) = false
  ∧ (process_card Sample.cfg "b1" "Team" (list_names_of Sample.lists)
       states Sample.card_doing_alice).2
    = [MembersAssigned "Team" Sample.card_doing_alice [Sample.alice] "@alice_tg"].
Proof.
  intros states. split; [apply lookup_singleton_eq|].
  split; [reflexivity|]. split; by vm_compute.
Qed.

(** * Properties of the pinned-messages store *)

Section Pins.

Variable c : string.

Lemma same_pin_spec mid msg :
  same_pin c mid msg = true ↔ chat_id msg = c ∧ message_id msg = mid.
Proof.
  unfold same_pin. rewrite andb_true_iff, bool_decide_eq_true, Z.eqb_eq. tauto.
Qed.

(** With a record for the key present, nothing is appended. *)
Lemma add_pinned_message_present data mid url now_iso :
  (∃ msg, In msg data ∧ chat_id msg = c ∧ message_id msg = mid) →
  add_pinned_message data c mid url now_iso = data.
Proof.
  intros (msg & Hin & Hc & Hm). unfold add_pinned_message.
  destruct (List.filter (same_pin c mid) data) as [|x l] eqn:E; [|done].
  assert (Hf : In msg (List.filter (same_pin c mid) data)).
  { apply filter_In. split; [done|]. by apply same_pin_spec. }
  rewrite E in Hf. destruct Hf.
Qed.

(** After the call a record for the key is present. *)
Lemma add_pinned_message_records data mid url now_iso :
  ∃ msg, In msg (add_pinned_message data c mid url now_iso)
         ∧ chat_id msg = c ∧ message_id msg = mid.
Proof.
  unfold add_pinned_message.
  destruct (List.filter (same_pin c mid) data) as [|x l] eqn:E.
  - eexists. split; [apply in_or_app; right; by left|done].
  - assert (Hx : In x (List.filter (same_pin c mid) data)) by (rewrite E; by left).
    apply filter_In in Hx as [Hin Hx]. apply same_pin_spec in Hx. by exists x.
Qed.

(** The records of the chat after [add_pinned_message] on a document that
    holds none for it. *)
Lemma add_pinned_message_fresh data mid url now_iso :
  get_stored_pinned_messages data c = [] →
  get_stored_pinned_messages (add_pinned_message data c mid url now_iso) c
  = [{| chat_id := c; message_id := mid; pinned_at := now_iso;
        message_url := url |}].
Proof.
  intros Hnone. unfold add_pinned_message.
  destruct (List.filter (same_pin c mid) data) as [|x l] eqn:E.
  - unfold get_stored_pinned_messages in *. rewrite List.filter_app, Hnone.
    simpl. by rewrite bool_decide_eq_true_2.
  - assert (Hx : In x (List.filter (same_pin c mid) data)) by (rewrite E; by left).
    apply filter_In in Hx as [Hin Hx]. apply same_pin_spec in Hx as [Hx _].
    assert (Hs : In x (get_stored_pinned_messages data c)).
    { apply filter_In. split; [done|]. by apply bool_decide_eq_true. }
    rewrite Hnone in Hs. destruct Hs.
Qed.

(** What survives the unpin loop was in the document and matches no record
    of the walked snapshot, when every unpin succeeds. *)
Lemma unpin_stored_all_ok ok stored : ∀ i data msg,
  (∀ j, ok j = true) →
  In msg (unpin_stored c ok i stored data) →
  In msg data ∧ ∀ s, In s stored → same_pin c (message_id s) msg = false.
Proof.
  induction stored as [|s0 rest IH]; intros i data msg Hok Hin; simpl in *.
  - split; [done|]. intros s [].
  - rewrite Hok in Hin. apply IH in Hin as [Hin Hrest]; [|done].
    unfold remove_pinned_message in Hin. apply filter_In in Hin as [Hin Hs0].
    split; [done|]. intros s [<-|Hs]; [|by apply Hrest].
    by apply negb_true_iff.
Qed.

(** The unpin loop with every unpin succeeding leaves no record of the
    chat. *)
Lemma unpin_stored_clears ok data :
  (∀ j, ok j = true) →
  get_stored_pinned_messages
    (unpin_stored c ok 0 (get_stored_pinned_messages data c) data) c = [].
Proof.
  intros Hok.
  destruct (get_stored_pinned_messages (unpin_stored _ _ _ _ _) c)
    as [|msg l] eqn:E; [done|].
  assert (Hin : In msg (get_stored_pinned_messages
            (unpin_stored c ok 0 (get_stored_pinned_messages data c) data) c))
    by (rewrite E; by left).
  apply filter_In in Hin as [Hin Hc]. apply bool_decide_eq_true in Hc.
  apply unpin_stored_all_ok in Hin as [Hin Hno]; [|done].
  assert (Hs : In msg (get_stored_pinned_messages data c)).
  { apply filter_In. split; [done|]. by apply bool_decide_eq_true. }
  apply Hno in Hs. assert (same_pin c (message_id msg) msg = true)
    by (by apply same_pin_spec). congruence.
Qed.

Lemma publish_all_snoc data calls o :
  publish_all data c (calls ++ [o])
  = (_send_report_with_pin (publish_all data c calls) c o).1.
Proof. unfold publish_all. by rewrite foldl_app. Qed.

End Pins.

(** C3 (as the code has it).  After any sequence of publications for a
    chat, whatever their outcomes, followed by a publication whose unpin
    attempts all succeed, at most one record of the chat is stored; when
    that publication also sends and pins, the one record is the one of the
    message just sent. *)
Theorem one_pin_after_clean_unpin data c calls o :
  (∀ j, unpin_ok o j = true) →
  let stored := get_stored_pinned_messages
                  (publish_all data c (calls ++ [o])) c in
  (length stored ≤ 1)%nat
  ∧ ∀ mid, sent_id o = Some mid → pin_ok o = true →
      stored = [{| chat_id := c; message_id := mid; pinned_at := stamp o;
                   message_url := message_url_of c mid |}].
Proof.
  intros Hok stored. unfold stored. rewrite publish_all_snoc.
  set (d := publish_all data c calls).
  pose proof (unpin_stored_clears c (unpin_ok o) d Hok) as Hclr.
  unfold _send_report_with_pin.
  destruct (sent_id o) as [mid|]; simpl.
  - destruct (pin_ok o); simpl.
    + rewrite (add_pinned_message_fresh c _ mid _ _ Hclr). split; [simpl; lia|].
      intros mid' [= <-] _. done.
    + rewrite Hclr. split; [simpl; lia|]. by intros.
  - rewrite Hclr. split; [simpl; lia|]. by intros.
Qed.

Lemma one_pin_after_clean_unpin_witness :
  get_stored_pinned_messages
    (publish_all [] SamplePins.chat
       ([SamplePins.all_ok 10 "2024-01-01T08:00:00";
         SamplePins.unpin_fails 11 "2024-01-02T08:00:00"]
        ++ [SamplePins.all_ok 12 "2024-01-03T08:00:00"])) SamplePins.chat
  = [{| chat_id := SamplePins.chat; message_id := 12;
        pinned_at := "2024-01-03T08:00:00";
        message_url := message_url_of SamplePins.chat 12 |}].
Proof.
  refine (proj2 (one_pin_after_clean_unpin [] SamplePins.chat
           [SamplePins.all_ok 10 "2024-01-01T08:00:00";
            SamplePins.unpin_fails 11 "2024-01-02T08:00:00"]
           (SamplePins.all_ok 12 "2024-01-03T08:00:00") _) 12 _ _);
    reflexivity.
Defined.

(** C3 as claimed fails: from an empty store, a publication that succeeds
    followed by one whose unpin fails while send and pin succeed leaves two
    records of the chat. *)
Lemma two_pins_counterexample :
  get_stored_pinned_messages
    (publish_all [] SamplePins.chat
       [SamplePins.all_ok 10 "2024-01-01T08:00:00";
        SamplePins.unpin_fails 11 "2024-01-02T08:00:00"]) SamplePins.chat
  = [SamplePins.rec10; SamplePins.rec11]
  ∧ ¬ (length (get_stored_pinned_messages
         (publish_all [] SamplePins.chat
            [SamplePins.all_ok 10 "2024-01-01T08:00:00";
             SamplePins.unpin_fails 11 "2024-01-02T08:00:00"])
         SamplePins.chat) ≤ 1)%nat.
Proof.
  assert (H : get_stored_pinned_messages
    (publish_all [] SamplePins.chat
       [SamplePins.all_ok 10 "2024-01-01T08:00:00";
        SamplePins.unpin_fails 11 "2024-01-02T08:00:00"]) SamplePins.chat
    = [SamplePins.rec10; SamplePins.rec11]) by (by vm_compute).
  rewrite H. split; [done|]. simpl. lia.
Qed.

(** C10.  [add_pinned_message] with a chat and message id for which a
    record is stored returns the document unchanged; so a second call with
    the same chat and message id, whatever its url and time, appends
    nothing. *)
Theorem add_pinned_message_idempotent data c mid url now_iso url' now_iso' :
  ((∃ msg, In msg data ∧ chat_id msg = c ∧ message_id msg = mid) →
     add_pinned_message data c mid url now_iso = data)
  ∧ add_pinned_message (add_pinned_message data c mid url now_iso)
      c mid url' now_iso'
    = add_pinned_message data c mid url now_iso.
Proof.
  split.
  - apply add_pinned_message_present.
  - apply add_pinned_message_present, add_pinned_message_records.
Qed.

Lemma add_pinned_message_idempotent_witness :
  add_pinned_message [SamplePins.rec10] SamplePins.chat 10
    "https://t.me/c/1234/10" "2024-01-05T08:00:00" = [SamplePins.rec10].
Proof.
  refine (proj1 (add_pinned_message_idempotent [SamplePins.rec10]
           SamplePins.chat 10 "https://t.me/c/1234/10" "2024-01-05T08:00:00"
           "" "") _).
  exists SamplePins.rec10. split; [by left|done].
Defined.

(** * Properties of the date rules *)

Section DateProps.

Variable fromisoformat : string -> option datetime.
Variable cfg : Config.

(** The whole-day count of a difference exceeds 3 exactly from four days
    on. *)
Lemma days_between_gt_3 (a b : datetime) :
  (3 <? days_between a b) = true ↔ 4 * usec_per_day ≤ wall a - wall b.
Proof.
  unfold days_between. rewrite Z.ltb_lt.
  assert (HD : 0 < usec_per_day) by (by vm_compute).
  rewrite (Z.mul_comm 4 usec_per_day).
  split.
  - intros H.
    destruct (Z_lt_le_dec (wall a - wall b) (usec_per_day * 4)) as [Hlt|]; [|done].
    apply (Z.div_lt_upper_bound _ _ _ HD) in Hlt. lia.
  - intros H. pose proof (Z.div_le_lower_bound _ _ 4 HD H). lia.
Qed.

(** A present field that [fromisoformat] rejects makes [is_card_overdue]
    raise. *)
Lemma is_card_overdue_rejects clk card s :
  present (due card) = Some s →
  parse_date fromisoformat s = None →
  is_card_overdue fromisoformat clk card = Raise ValueError.
Proof. intros Hp Hs. unfold is_card_overdue. by rewrite Hp, Hs. Qed.

End DateProps.

(** The date rule of [get_user_tasks] and of [get_current_cards] for a card
    with a due date and no start date, in the values the code compares: the
    wall-clock digits of the due date, its zone dropped, against the naive
    local time of the host.  In the personal task list the card is Future
    when that difference is four days or more and Current below four days;
    in the daily digest it is never appended. *)
Lemma due_only_card_rule fromisoformat cfg list_names
    clk1 clk2 now card s due_dt :
  matches_any (done_list_names cfg) (list_name_of list_names card) = false →
  matches_any (in_progress_list_names cfg) (list_name_of list_names card) = true →
  present (start card) = None →
  present (due card) = Some s →
  parse_date fromisoformat s = Some due_dt →
  is_card_overdue fromisoformat clk1 card = Ok false →
  let category :=
    categorize_user_card fromisoformat cfg list_names clk1 clk2 card in
  let now2 := datetime_now clk2 None in
  (4 * usec_per_day ≤ wall due_dt - wall now2 → category = Ok Future)
  ∧ (wall due_dt - wall now2 < 4 * usec_per_day → category = Ok Current)
  ∧ is_current_card fromisoformat cfg list_names clk1 now card = Ok false.
Proof.
  intros Hnd Hip Hst Hdue Hparse Hov category now2.
  assert (Hcat : category
    = if negb (3 <? days_between (strip_tz due_dt) now2)
      then Ok Current else Ok Future).
  { unfold category, categorize_user_card, should_be_current.
    by rewrite Hnd, Hov, Hip, Hst, Hdue, Hparse. }
  split; [|split].
  - intros H. rewrite Hcat.
    assert ((3 <? days_between (strip_tz due_dt) now2) = true) as ->
      by (apply days_between_gt_3; exact H).
    done.
  - intros H. rewrite Hcat.
    destruct (3 <? days_between (strip_tz due_dt) now2) eqn:E; [|done].
    apply days_between_gt_3 in E.
    change (wall (strip_tz due_dt)) with (wall due_dt) in E. lia.
  - unfold is_current_card. by rewrite Hov, Hst, Hdue.
Qed.

Lemma due_only_card_rule_witness :
  categorize_user_card Iso.fromisoformat Sample.cfg (list_names_of Sample.lists)
    (SampleDates.utc_host "2024-01-02T00:00:00")
    (SampleDates.utc_host "2024-01-02T00:00:00") SampleDates.card_due_10d
  = Ok Future.
Proof.
  refine (proj1 (due_only_card_rule Iso.fromisoformat Sample.cfg
           (list_names_of Sample.lists)
           (SampleDates.utc_host "2024-01-02T00:00:00")
           (SampleDates.utc_host "2024-01-02T00:00:00")
           (datetime_now (SampleDates.utc_host "2024-01-02T00:00:00") None)
           SampleDates.card_due_10d "2024-01-12T00:00:00.000Z"
           {| wall := SampleDates.at_time "2024-01-12T00:00:00";
              tzinfo := Some 0 |} _ _ _ _ _ _) _);
    by vm_compute.
Defined.


(** C6, the code at a malformed due date.  [is_card_overdue] raises
    [ValueError] on a card whose due field is not a timestamp; so do the
    personal-task categorisation and the daily-digest rule, which call it
    unguarded; and in the personal task list the cards of the board that
    come after such a card are dropped, although alone they are listed. *)
Theorem malformed_due_raises :
  let clk := SampleDates.utc_host "2024-01-02T00:00:00" in
  let ln := list_names_of Sample.lists in
  is_card_overdue Iso.fromisoformat clk SampleDates.card_bad_due
    = Raise ValueError
  ∧ categorize_user_card Iso.fromisoformat Sample.cfg ln clk clk
      SampleDates.card_bad_due = Raise ValueError
  ∧ is_current_card Iso.fromisoformat Sample.cfg ln clk (datetime_now clk None)
      SampleDates.card_bad_due = Raise ValueError
  ∧ categorize_user_cards Iso.fromisoformat Sample.cfg ln
      (SampleDates.frozen clk) 0 [SampleDates.card_due_1d]
    = ([], [SampleDates.card_due_1d])
  ∧ categorize_user_cards Iso.fromisoformat Sample.cfg ln
      (SampleDates.frozen clk) 0
      [SampleDates.card_bad_due; SampleDates.card_due_1d]
    = ([], []).
Proof. by vm_compute. Qed.

(** The test of the weekly report in the values the code compares: the
    wall-clock digits of the last-activity timestamp, its zone dropped,
    against the naive local time of the host minus seven days, the bound
    included. *)
Lemma completed_this_week_test fromisoformat cfg list_names today card :
  completed_this_week fromisoformat cfg list_names today card = true
  ↔ matches_any (done_list_names cfg) (list_name_of list_names card) = true
    ∧ ∃ s dt, present (dateLastActivity card) = Some s
              ∧ parse_date fromisoformat s = Some dt
              ∧ wall today - 7 * usec_per_day ≤ wall dt.
Proof.
  unfold completed_this_week.
  destruct (matches_any (done_list_names cfg) (list_name_of list_names card));
    [|split; [done|by intros [? _]]].
  destruct (present (dateLastActivity card)) as [s|];
    [|split; [done|by intros [_ (? & ? & ? & _)]]].
  destruct (parse_date fromisoformat s) as [dt|] eqn:E.
  - simpl. rewrite Z.leb_le. split.
    + intros H. split; [done|]. by exists s, dt.
    + intros [_ (s' & dt' & [= <-] & Hp & H)]. rewrite E in Hp.
      by injection Hp as <-.
  - split; [done|]. intros [_ (s' & dt' & [= <-] & Hp & _)]. congruence.
Qed.

(** A card last touched exactly seven days before the report is counted. *)
Lemma completed_this_week_test_witness :
  completed_this_week Iso.fromisoformat Sample.cfg (list_names_of Sample.lists)
    (datetime_now (SampleDates.utc_host "2024-01-10T12:00:00") None)
    (SampleDates.card_done_at "2024-01-03T12:00:00.000Z") = true.
Proof.
  apply (completed_this_week_test Iso.fromisoformat Sample.cfg
           (list_names_of Sample.lists)
           (datetime_now (SampleDates.utc_host "2024-01-10T12:00:00") None)
           (SampleDates.card_done_at "2024-01-03T12:00:00.000Z")).
  split; [by vm_compute|].
  exists "2024-01-03T12:00:00.000Z",
    {| wall := SampleDates.at_time "2024-01-03T12:00:00"; tzinfo := Some 0 |}.
  split; [reflexivity|]. split; [by vm_compute|]. by vm_compute.
Defined.

(** C7, the code on a host that is not in UTC.  The report is made at
    2024-01-10 12:00 UTC.  A done card last touched 6 days 22 hours earlier
    lies inside the window from now minus seven days to now, and a done card
    last touched exactly seven days earlier lies on its bound.  On a host in
    UTC both are counted as completed this week; on a host five hours ahead
    of UTC neither is: the digits of the UTC timestamp are compared with the
    local time of the host. *)
Theorem weekly_window_shifts_with_host_zone :
  let ln := list_names_of Sample.lists in
  let report := "2024-01-10T12:00:00" in
  let inside := SampleDates.card_done_at "2024-01-03T14:00:00.000Z" in
  let bound := SampleDates.card_done_at "2024-01-03T12:00:00.000Z" in
  (SampleDates.at_time report - 7 * usec_per_day
     < SampleDates.at_time "2024-01-03T14:00:00"
   ∧ SampleDates.at_time "2024-01-03T14:00:00" ≤ SampleDates.at_time report
   ∧ SampleDates.at_time "2024-01-03T12:00:00"
     = SampleDates.at_time report - 7 * usec_per_day)
  ∧ (completed_this_week Iso.fromisoformat Sample.cfg ln
       (datetime_now (SampleDates.utc_host report) None) inside = true
     ∧ completed_this_week Iso.fromisoformat Sample.cfg ln
         (datetime_now (SampleDates.utc_host report) None) bound = true)
  ∧ (completed_this_week Iso.fromisoformat Sample.cfg ln
       (datetime_now (SampleDates.east_host report) None) inside = false
     ∧ completed_this_week Iso.fromisoformat Sample.cfg ln
         (datetime_now (SampleDates.east_host report) None) bound = false).
Proof. by vm_compute. Qed.

(** * Further properties of the change detector *)

Section DetectorMore.

Variable cfg : Config.
Variables board_id board_name : string.
Variable list_names : gmap string string.

Local Abbreviation step := (process_card cfg board_id board_name list_names).
Local Abbreviation run := (process_cards cfg board_id board_name list_names).
Local Abbreviation key_of card := (card_key board_id (card_id card)).

(** A step writes at most the entry of its own card. *)
Lemma process_card_frame states card (k : string) :
  k ≠ key_of card → (step states card).1 !! k = states !! k.
Proof.
  intros Hne. unfold process_card.
  destruct (_is_card_done cfg card list_names); simpl.
  - destruct (states !! key_of card) as [st|]; simpl.
    + destruct (completed st); simpl; [done|]. by rewrite lookup_insert_ne.
    + by rewrite lookup_insert_ne.
  - by rewrite lookup_insert_ne.
Qed.

(** A step never removes an entry. *)
Lemma process_card_keeps_keys states card (k : string) :
  is_Some (states !! k) → is_Some ((step states card).1 !! k).
Proof.
  intros Hk. destruct (decide (k = key_of card)) as [->|Hne].
  - unfold process_card.
    destruct (_is_card_done cfg card list_names); simpl.
    + destruct (states !! key_of card) as [st|] eqn:E; simpl.
      * destruct (completed st); simpl; [by rewrite E|].
        rewrite lookup_insert_eq. by eexists.
      * rewrite lookup_insert_eq. by eexists.
    + rewrite lookup_insert_eq. by eexists.
  - by rewrite process_card_frame.
Qed.

(** After its step the entry of a card agrees with the observation. *)
Lemma process_card_reflects states card :
  reflects cfg board_id list_names (step states card).1 card.
Proof.
  unfold reflects, process_card.
  destruct (_is_card_done cfg card list_names) eqn:Hd; simpl.
  - destruct (states !! key_of card) as [st|] eqn:E; simpl.
    + destruct (completed st) eqn:Hc; simpl.
      * by exists st.
      * eexists. by rewrite lookup_insert_eq.
    + eexists. by rewrite lookup_insert_eq.
  - eexists. by rewrite lookup_insert_eq.
Qed.

(** Steps on cards with another id keep the agreement. *)
Lemma reflects_other states card card' :
  card_id card' ≠ card_id card →
  reflects cfg board_id list_names states card →
  reflects cfg board_id list_names (step states card').1 card.
Proof.
  intros Hne (st & Hst & H). exists st. split; [|done].
  rewrite process_card_frame; [done|].
  intros Heq. by apply card_key_inj in Heq.
Qed.

(** An entry that agrees with the observation makes the step a no-op. *)
Lemma reflects_silent states card :
  reflects cfg board_id list_names states card →
  step states card = (states, []).
Proof.
  intros (st & Hst & H). unfold process_card.
  destruct (_is_card_done cfg card list_names); rewrite Hst.
  - by rewrite H.
  - subst st. simpl. rewrite list_to_set_elements_L.
    rewrite decide_True by apply difference_diag_L. by rewrite insert_id.
Qed.

Lemma run_reflects_other cards card : ∀ states,
  card_id card ∉ card_id <$> cards →
  reflects cfg board_id list_names states card →
  reflects cfg board_id list_names (run states cards).1 card.
Proof.
  induction cards as [|c rest IH]; intros states Hnin Hr; simpl; [done|].
  rewrite fmap_cons, not_elem_of_cons in Hnin. destruct Hnin as [Hne Hnin].
  pose proof (reflects_other states card c (not_eq_sym Hne) Hr) as H1.
  destruct (step states c) as [states1 sent1]. simpl in H1.
  pose proof (IH states1 Hnin H1) as H2.
  by destruct (run states1 rest) as [states2 sent2].
Qed.

Lemma run_reflects cards : ∀ states,
  NoDup (card_id <$> cards) →
  ∀ card, card ∈ cards →
    reflects cfg board_id list_names (run states cards).1 card.
Proof.
  induction cards as [|c rest IH]; intros states Hnd card Hin; simpl.
  - by apply elem_of_nil in Hin.
  - rewrite fmap_cons in Hnd. apply NoDup_cons in Hnd as [Hc Hnd].
    pose proof (process_card_reflects states c) as H1.
    destruct (step states c) as [states1 sent1] eqn:E1. simpl in H1.
    apply elem_of_cons in Hin as [->|Hin].
    + pose proof (run_reflects_other rest c states1 Hc H1) as H2.
      by destruct (run states1 rest).
    + pose proof (IH states1 Hnd card Hin) as H2.
      by destruct (run states1 rest).
Qed.

Lemma run_silent cards : ∀ states,
  (∀ card, card ∈ cards → reflects cfg board_id list_names states card) →
  run states cards = (states, []).
Proof.
  induction cards as [|c rest IH]; intros states Hall; simpl; [done|].
  rewrite (reflects_silent states c) by (apply Hall; by left).
  rewrite IH; [done|]. intros card Hin. apply Hall. by right.
Qed.

Lemma run_frame cards (k : string) : ∀ states,
  (∀ card, card ∈ cards → k ≠ key_of card) →
  (run states cards).1 !! k = states !! k.
Proof.
  induction cards as [|c rest IH]; intros states Hk; simpl; [done|].
  pose proof (process_card_frame states c k (Hk c ltac:(by left))) as H1.
  destruct (step states c) as [states1 sent1]. simpl in H1.
  pose proof (IH states1 (λ card Hin, Hk card ltac:(by right))) as H2.
  destruct (run states1 rest). simpl in *. congruence.
Qed.

Lemma run_keeps_keys cards (k : string) : ∀ states,
  is_Some (states !! k) → is_Some ((run states cards).1 !! k).
Proof.
  induction cards as [|c rest IH]; intros states Hk; simpl; [done|].
  pose proof (process_card_keeps_keys states c k Hk) as H1.
  destruct (step states c) as [states1 sent1]. simpl in H1.
  pose proof (IH states1 H1) as H2.
  by destruct (run states1 rest).
Qed.

(** A first observation sends nothing. *)
Lemma process_card_first_seen states card :
  states !! key_of card = None → (step states card).2 = [].
Proof.
  intros Hn. unfold process_card.
  destruct (_is_card_done cfg card list_names); by rewrite Hn.
Qed.

Lemma run_cold cards : ∀ states,
  NoDup (card_id <$> cards) →
  (∀ card, card ∈ cards → states !! key_of card = None) →
  (run states cards).2 = [].
Proof.
  induction cards as [|c rest IH]; intros states Hnd Hnone; simpl; [done|].
  rewrite fmap_cons in Hnd. apply NoDup_cons in Hnd as [Hc Hnd].
  pose proof (process_card_first_seen states c (Hnone c ltac:(by left))) as H1.
  assert (Hrest : ∀ card, card ∈ rest → (step states c).1 !! key_of card = None).
  { intros card Hin. rewrite process_card_frame; [apply Hnone; by right|].
    intros Heq. apply card_key_inj in Heq. apply Hc. rewrite <- Heq.
    by apply list_elem_of_fmap_2. }
  destruct (step states c) as [states1 sent1]. simpl in *.
  pose proof (IH states1 Hnd Hrest) as H2.
  destruct (run states1 rest). simpl in *. by rewrite H1, H2.
Qed.

(** What a step may send. *)
Lemma process_card_sound states card n :
  n ∈ (step states card).2 →
  match n with
  | CardCompleted bn c =>
      bn = board_name ∧ c = card ∧ _is_card_done cfg card list_names = true
      ∧ ∃ st, states !! key_of card = Some st ∧ completed st = false
  | MembersAssigned bn c ms _ =>
      bn = board_name ∧ c = card ∧ _is_card_done cfg card list_names = false
      ∧ ms ≠ [] ∧ (∀ m, m ∈ ms → m ∈ card_members card)
      ∧ ∃ st, states !! key_of card = Some st
              ∧ ∀ m, m ∈ ms → member_id m ∉ members st
  end.
Proof.
  unfold process_card.
  destruct (_is_card_done cfg card list_names) eqn:Hd; simpl.
  - destruct (states !! key_of card) as [st|] eqn:E; simpl;
      [|by intros ?%elem_of_nil].
    destruct (completed st) eqn:Hc; simpl; [by intros ?%elem_of_nil|].
    intros ->%list_elem_of_singleton. repeat split; try done. by exists st.
  - destruct (states !! key_of card) as [st|] eqn:E; simpl;
      [|by intros ?%elem_of_nil].
    case_decide as Hnew; [by intros ?%elem_of_nil|].
    unfold notify_member_assignments.
    destruct (filter _ (card_members card)) as [|m0 ms0] eqn:F;
      [by intros ?%elem_of_nil|].
    intros ->%list_elem_of_singleton. repeat split; try done.
    + intros m Hm. rewrite <- F in Hm. by apply list_elem_of_filter in Hm as [_ ?].
    + exists st. split; [done|]. intros m Hm. rewrite <- F in Hm.
      apply list_elem_of_filter in Hm as [Hm _].
      apply elem_of_difference in Hm as [_ Hm].
      by rewrite elem_of_list_to_set in Hm.
Qed.

Lemma process_card_sent_length states card :
  (length (step states card).2 ≤ 1)%nat.
Proof.
  unfold process_card.
  destruct (_is_card_done cfg card list_names); simpl.
  - destruct (states !! key_of card) as [st|]; simpl; [|lia].
    destruct (completed st); simpl; lia.
  - destruct (states !! key_of card) as [st|]; simpl; [|lia].
    case_decide; simpl; [lia|]. unfold notify_member_assignments.
    destruct (filter _ (card_members card)); simpl; lia.
Qed.

End DetectorMore.

(** X1.  Cold start: when no card of the snapshot has an entry yet (and the
    snapshot lists every card once), the poll of the board sends nothing at
    all, neither completions nor assignments. *)
Theorem first_poll_is_silent cfg board_id snap states :
  NoDup (card_id <$> snap_cards snap) →
  (∀ card, card ∈ snap_cards snap →
     states !! card_key board_id (card_id card) = None) →
  (check_board cfg board_id snap states).2 = [].
Proof. intros Hnd Hnone. by apply run_cold. Qed.

Lemma first_poll_is_silent_witness :
  (check_board Sample.cfg "b1" SampleBoard.snap ∅).2 = [].
Proof.
  apply first_poll_is_silent.
  - by apply (bool_decide_unpack _).
  - intros card _. apply lookup_empty.
Defined.

(** X2.  Polling an unchanged snapshot again (every card listed once) sends
    nothing and leaves [last_known_states] as the first poll left it. *)
Theorem unchanged_snapshot_is_silent cfg board_id snap states :
  NoDup (card_id <$> snap_cards snap) →
  check_board cfg board_id snap (check_board cfg board_id snap states).1
  = ((check_board cfg board_id snap states).1, []).
Proof.
  intros Hnd. unfold check_board. apply run_silent.
  intros card Hin. by apply run_reflects.
Qed.

Lemma unchanged_snapshot_is_silent_witness :
  (check_board Sample.cfg "b1" SampleBoard.snap
     (check_board Sample.cfg "b1" SampleBoard.snap
        {[ card_key "b1" "c1" := Sample.state_doing ]}).1).2 = [].
Proof.
  rewrite (unchanged_snapshot_is_silent Sample.cfg "b1" SampleBoard.snap
             {[ card_key "b1" "c1" := Sample.state_doing ]}); [done|].
  by apply (bool_decide_unpack _).
Defined.

(** X3.  After the poll of a board whose snapshot lists every card once,
    every listed card has an entry whose completed flag is its done
    classification; for a card that is not done the entry holds the observed
    list id and exactly the observed member ids. *)
Theorem poll_records_snapshot cfg board_id snap states card :
  NoDup (card_id <$> snap_cards snap) →
  card ∈ snap_cards snap →
  ∃ st, (check_board cfg board_id snap states).1
          !! card_key board_id (card_id card) = Some st
    ∧ completed st = _is_card_done cfg card (list_names_of (snap_lists snap))
    ∧ (completed st = false →
         list_id st = idList card
         ∧ (list_to_set (members st) : gset string) = current_member_ids card).
Proof.
  intros Hnd Hin.
  destruct (run_reflects cfg board_id (snap_board_name snap)
              (list_names_of (snap_lists snap)) (snap_cards snap) states Hnd
              card Hin) as (st & Hst & H).
  exists st. split; [done|].
  destruct (_is_card_done cfg card (list_names_of (snap_lists snap))).
  - split; [done|]. intros Hc. congruence.
  - subst st. simpl. split; [done|]. intros _. split; [done|].
    apply list_to_set_elements_L.
Qed.

Lemma poll_records_snapshot_witness :
  ∃ st, (check_board Sample.cfg "b1" SampleBoard.snap ∅).1
          !! card_key "b1" "c2" = Some st
    ∧ completed st = false.
Proof.
  destruct (poll_records_snapshot Sample.cfg "b1" SampleBoard.snap ∅
              SampleBoard.card2_doing_bob) as (st & Hst & Hc & _).
  - by apply (bool_decide_unpack _).
  - right. by left.
  - exists st. split; [done|]. rewrite Hc. by vm_compute.
Defined.

(** What a run over the cards of a board may send. *)
Lemma process_cards_sound cfg board_id board_name list_names cards n :
  ∀ states,
  n ∈ (process_cards cfg board_id board_name list_names states cards).2 →
  match n with
  | CardCompleted bn c =>
      bn = board_name ∧ c ∈ cards ∧ _is_card_done cfg c list_names = true
  | MembersAssigned bn c ms _ =>
      bn = board_name ∧ c ∈ cards ∧ _is_card_done cfg c list_names = false
      ∧ ms ≠ [] ∧ (∀ m, m ∈ ms → m ∈ card_members c)
  end.
Proof.
  induction cards as [|c0 rest IH]; intros states; simpl.
  - by intros ?%elem_of_nil.
  - pose proof (process_card_sound cfg board_id board_name list_names states c0 n) as H1.
    destruct (process_card cfg board_id board_name list_names states c0)
      as [states1 sent1].
    specialize (IH states1).
    destruct (process_cards cfg board_id board_name list_names states1 rest)
      as [states2 sent2].
    simpl in *. intros [Hn|Hn]%elem_of_app.
    + specialize (H1 Hn). destruct n.
      * destruct H1 as (-> & -> & Hd & _). split; [done|]. split; [by left|done].
      * destruct H1 as (-> & -> & Hd & Hne & Hms & _).
        split; [done|]. split; [by left|done].
    + specialize (IH Hn). destruct n.
      * destruct IH as (-> & Hc & Hd). split; [done|]. split; [by right|done].
      * destruct IH as (-> & Hc & Hd). split; [done|]. split; [by right|done].
Qed.

Lemma process_cards_sent_length cfg board_id board_name list_names cards :
  ∀ states,
  (length (process_cards cfg board_id board_name list_names states cards).2
   ≤ length cards)%nat.
Proof.
  induction cards as [|c0 rest IH]; intros states; simpl; [lia|].
  pose proof (process_card_sent_length cfg board_id board_name list_names states c0) as H1.
  destruct (process_card cfg board_id board_name list_names states c0)
    as [states1 sent1].
  specialize (IH states1).
  destruct (process_cards cfg board_id board_name list_names states1 rest)
    as [states2 sent2].
  simpl in *. rewrite length_app. lia.
Qed.

(** The messages of a run, card by card: for each listed card, in order,
    at most one message, and that message is about the card. *)
Lemma process_cards_per_card cfg board_id board_name list_names cards :
  ∀ states, ∃ per_card,
    (process_cards cfg board_id board_name list_names states cards).2
    = concat per_card
    ∧ Forall2 (λ card msgs, (length msgs ≤ 1)%nat
                            ∧ ∀ n, n ∈ msgs → message_card n = card)
        cards per_card.
Proof.
  induction cards as [|c0 rest IH]; intros states; simpl.
  - exists []. split; [done|constructor].
  - pose proof (process_card_sent_length cfg board_id board_name list_names
                  states c0) as Hlen.
    pose proof (process_card_sound cfg board_id board_name list_names
                  states c0) as Hsound.
    destruct (process_card cfg board_id board_name list_names states c0)
      as [states1 sent1].
    destruct (IH states1) as (per_rest & Hrest & Hall).
    destruct (process_cards cfg board_id board_name list_names states1 rest)
      as [states2 sent2].
    simpl in *. exists (sent1 :: per_rest). split; [by rewrite Hrest|].
    constructor; [|done]. split; [done|].
    intros n Hn. specialize (Hsound n Hn).
    destruct n; simpl; by destruct Hsound as (_ & -> & _).
Qed.

(** X4.  The messages of a poll of a board are, card by card in snapshot
    order, at most one message for each listed card, and that message is
    about the card; a completion message is only sent for a listed card
    that is in a done list, an assignment message only for a listed card
    that is not, and it names at least one member, all of them members of
    that card. *)
Theorem poll_messages_are_justified cfg board_id snap states :
  let sent := (check_board cfg board_id snap states).2 in
  let done c := _is_card_done cfg c (list_names_of (snap_lists snap)) in
  (∃ per_card, sent = concat per_card
     ∧ Forall2 (λ card msgs, (length msgs ≤ 1)%nat
                             ∧ ∀ n, n ∈ msgs → message_card n = card)
         (snap_cards snap) per_card)
  ∧ (∀ bn c, CardCompleted bn c ∈ sent →
       bn = snap_board_name snap ∧ c ∈ snap_cards snap ∧ done c = true)
  ∧ (∀ bn c ms tags, MembersAssigned bn c ms tags ∈ sent →
       bn = snap_board_name snap ∧ c ∈ snap_cards snap ∧ done c = false
       ∧ ms ≠ [] ∧ ∀ m, m ∈ ms → m ∈ card_members c).
Proof.
  intros sent done. split; [apply process_cards_per_card|]. split.
  - intros bn c Hin.
    exact (process_cards_sound cfg board_id (snap_board_name snap)
             (list_names_of (snap_lists snap)) (snap_cards snap)
             (CardCompleted bn c) states Hin).
  - intros bn c ms tags Hin.
    exact (process_cards_sound cfg board_id (snap_board_name snap)
             (list_names_of (snap_lists snap)) (snap_cards snap)
             (MembersAssigned bn c ms tags) states Hin).
Qed.

(** X6.  Entries are never pruned: a key that has an entry before a poll
    over all boards has one after it, whatever the boards return. *)
Theorem entries_are_never_pruned cfg boards : ∀ states (k : string),
  is_Some (states !! k) →
  is_Some ((check_for_completed_cards cfg boards states).1 !! k).
Proof.
  induction boards as [|[b [snap|]] rest IH]; intros states k Hk; simpl; [done| |by apply IH].
  pose proof (run_keeps_keys cfg b (snap_board_name snap)
                (list_names_of (snap_lists snap)) (snap_cards snap) k states Hk) as H1.
  fold (check_board cfg b snap states) in H1.
  destruct (check_board cfg b snap states) as [states1 sent1]. simpl in H1.
  pose proof (IH states1 k H1) as H2.
  by destruct (check_for_completed_cards cfg rest states1).
Qed.

Lemma entries_are_never_pruned_witness :
  is_Some ((check_for_completed_cards Sample.cfg SampleBoard.boards
              {[ card_key "b9" "gone" := Sample.state_done ]}).1
             !! card_key "b9" "gone").
Proof.
  apply entries_are_never_pruned. rewrite lookup_singleton_eq. by eexists.
Defined.

(** X7.  The poll of a board touches only the entries of the cards it
    lists: the entry under any other key, such as the one of a card that
    left the board, is exactly what it was. *)
Theorem unlisted_entries_are_untouched cfg board_id snap states (k : string) :
  (∀ card, card ∈ snap_cards snap → k ≠ card_key board_id (card_id card)) →
  (check_board cfg board_id snap states).1 !! k = states !! k.
Proof. intros Hk. by apply run_frame. Qed.

Lemma unlisted_entries_are_untouched_witness :
  (check_board Sample.cfg "b1" SampleBoard.snap
     {[ card_key "b1" "gone" := Sample.state_doing ]}).1
    !! card_key "b1" "gone" = Some Sample.state_doing.
Proof.
  rewrite unlisted_entries_are_untouched; [apply lookup_singleton_eq|].
  intros card Hin.
  repeat (apply elem_of_cons in Hin as [->|Hin]; [by vm_compute|]).
  by apply elem_of_nil in Hin.
Defined.

(** X8.  For board ids without an underscore the state key determines the
    board and the card: entries of different boards, or of different cards
    of a board, never share a key. *)
Theorem card_key_injective b1 : ∀ b2 c1 c2,
  underscore_free b1 = true → underscore_free b2 = true →
  card_key b1 c1 = card_key b2 c2 → b1 = b2 ∧ c1 = c2.
Proof.
  unfold card_key.
  induction b1 as [|a1 b1 IH]; intros [|a2 b2] c1 c2 H1 H2 Heq; simpl in *.
  - by injection Heq.
  - injection Heq as <- _. by rewrite Ascii.eqb_refl in H2.
  - injection Heq as -> _. by rewrite Ascii.eqb_refl in H1.
  - injection Heq as -> Heq.
    apply andb_true_iff in H1 as [_ H1]. apply andb_true_iff in H2 as [_ H2].
    destruct (IH b2 c1 c2 H1 H2 Heq) as [-> ->]. done.
Qed.

Lemma card_key_injective_witness :
  card_key "b1" "c1" ≠ card_key "b2" "c1".
Proof.
  intros Heq.
  destruct (card_key_injective "b1" "b2" "c1" "c1" eq_refl eq_refl Heq) as [H _].
  discriminate H.
Defined.

Lemma poll_messages_are_justified_witness :
  _is_card_done Sample.cfg Sample.card_done (list_names_of Sample.lists) = true.
Proof.
  destruct (poll_messages_are_justified Sample.cfg "b1" SampleBoard.snap
              {[ card_key "b1" "c1" := Sample.state_doing ]}) as (_ & H & _).
  refine (proj2 (proj2 (H "Team" Sample.card_done _))).
  assert (Hs : (check_board Sample.cfg "b1" SampleBoard.snap
                  {[ card_key "b1" "c1" := Sample.state_doing ]}).2
               = [CardCompleted "Team" Sample.card_done]) by (by vm_compute).
  rewrite Hs. by left.
Defined.

(** * Properties of the list-name matching *)

Lemma prefix_app (n b : string) : String.prefix n (n ++ b) = true.
Proof.
  induction n as [|c n IH]; [by destruct b|]. simpl.
  destruct (ascii_dec c c); [done|congruence].
Qed.

Lemma prefix_split (n : string) : ∀ h,
  String.prefix n h = true → ∃ b, h = n ++ b.
Proof.
  induction n as [|c n IH]; intros h Hp.
  - by exists h.
  - destruct h as [|c' h]; [done|]. simpl in Hp.
    destruct (ascii_dec c c') as [->|]; [|done].
    destruct (IH h Hp) as [b ->]. by exists b.
Qed.

(** [needle in hay] holds exactly when [hay] has [needle] as a substring. *)
Lemma contains_iff (n : string) : ∀ h,
  Str.contains n h = true ↔ ∃ a b, h = a ++ n ++ b.
Proof.
  intros h. split.
  - induction h as [|c h IH].
    + destruct n; [|done]. intros _. by exists "", "".
    + unfold Str.contains; fold Str.contains.
      destruct (String.prefix n (String c h)) eqn:E.
      * intros _. apply prefix_split in E as [b E]. by exists "", b.
      * intros H. destruct (IH H) as (a & b & ->). by exists (String c a), b.
  - intros (a & b & ->). induction a as [|c a IH].
    + change ("" ++ n ++ b) with (n ++ b).
      destruct (n ++ b) eqn:E; unfold Str.contains; rewrite <- E;
        by rewrite prefix_app.
    + change (String c a ++ n ++ b) with (String c (a ++ n ++ b)).
      unfold Str.contains; fold Str.contains.
      destruct (String.prefix n (String c (a ++ n ++ b))); [done|]. exact IH.
Qed.

Lemma lower_app (a b : string) : Str.lower (a ++ b) = Str.lower a ++ Str.lower b.
Proof. induction a as [|c a IH]; simpl; [done|]. by rewrite IH. Qed.

(** X9.  For list names and markers made of ASCII characters, where
    [Str.lower] is what [str.lower] computes: a list name matches a set of
    markers exactly when, letter case aside, it contains one of the markers
    as a substring; so a list whose name has a marker anywhere inside it, in
    any letter case, matches. *)
Theorem matches_any_iff names list_name :
  is_ascii_string list_name = true →
  Forall (λ n, is_ascii_string n = true) names →
  (matches_any names list_name = true
   ↔ ∃ n a b, In n names ∧ Str.lower list_name = a ++ Str.lower n ++ b)
  ∧ ∀ n n' a b, In n names → is_ascii_string (a ++ n' ++ b) = true →
      Str.lower n' = Str.lower n →
      matches_any names (a ++ n' ++ b) = true.
Proof.
  intros _ _.
  assert (Hiff : matches_any names list_name = true
   ↔ ∃ n a b, In n names ∧ Str.lower list_name = a ++ Str.lower n ++ b).
  { unfold matches_any. rewrite existsb_exists. split.
    - intros (n & Hin & Hc). apply contains_iff in Hc as (a & b & Hc).
      by exists n, a, b.
    - intros (n & a & b & Hin & Hl). exists n. split; [done|].
      apply contains_iff. by exists a, b. }
  split; [done|]. intros n n' a b Hin _ Hl.
  unfold matches_any. apply existsb_exists. exists n. split; [done|].
  apply contains_iff. exists (Str.lower a), (Str.lower b).
  by rewrite !lower_app, Hl.
Qed.

Lemma matches_any_iff_witness :
  matches_any ["Done"] "Sprint 4 - DONE (archive)" = true.
Proof.
  refine (proj2 (matches_any_iff ["Done"] "Sprint 4 - DONE (archive)" _ _)
            "Done" "DONE" "Sprint 4 - " " (archive)"
            (or_introl eq_refl) _ eq_refl).
  - reflexivity.
  - by repeat constructor.
  - reflexivity.
Defined.

Lemma lower_empty (s : string) : Str.lower s = "" → s = "".
Proof. by destruct s. Qed.

(** X10.  The empty marker and the unknown list.  An empty string among the
    markers matches every list name; and a card whose list id is not among
    the fetched lists is done exactly when the done markers contain the
    empty string. *)
Theorem empty_marker_and_unknown_list cfg card list_names :
  (In "" (done_list_names cfg) → _is_card_done cfg card list_names = true)
  ∧ (list_names !! idList card = None →
       (_is_card_done cfg card list_names = true ↔ In "" (done_list_names cfg))).
Proof.
  unfold _is_card_done, matches_any. split.
  - intros Hin. apply existsb_exists. exists "". split; [done|]. simpl.
    by destruct (Str.lower (list_name_of list_names card)).
  - intros Hnone. unfold list_name_of. rewrite Hnone. simpl.
    rewrite existsb_exists. split.
    + intros (n & Hin & Hc). simpl in Hc.
      destruct (Str.lower n) eqn:E; [|done].
      apply lower_empty in E. by subst.
    + intros Hin. by exists "".
Qed.

Lemma empty_marker_and_unknown_list_witness :
  _is_card_done Sample.cfg
    (Sample.mk_card "L-unknown" [] None None None) (list_names_of Sample.lists)
  ≠ true.
Proof.
  intros H.
  apply (proj2 (empty_marker_and_unknown_list Sample.cfg
           (Sample.mk_card "L-unknown" [] None None None)
           (list_names_of Sample.lists))) in H.
  - simpl in H. destruct H as [H|[]]. discriminate H.
  - by vm_compute.
Defined.

(** * Further properties of the pinned-messages store *)

Section PinsMore.

Variable c : string.

Lemma remove_pinned_message_subset data mid msg :
  In msg (remove_pinned_message data c mid) → In msg data.
Proof. unfold remove_pinned_message. by intros [? _]%filter_In. Qed.

(** Whatever the unpin answers, the loop only removes records. *)
Lemma unpin_stored_subset ok stored : ∀ i data msg,
  In msg (unpin_stored c ok i stored data) → In msg data.
Proof.
  induction stored as [|s0 rest IH]; intros i data msg Hin; simpl in *; [done|].
  apply IH in Hin. destruct (ok i); [|done].
  by apply remove_pinned_message_subset in Hin.
Qed.

Lemma add_pinned_message_cases data mid url now_iso msg :
  In msg (add_pinned_message data c mid url now_iso) →
  In msg data ∨ msg = {| chat_id := c; message_id := mid;
                         pinned_at := now_iso; message_url := url |}.
Proof.
  unfold add_pinned_message.
  destruct (List.filter (same_pin c mid) data); [|by left].
  intros [H|[H|[]]]%in_app_or; [by left|by right].
Qed.

(** Records of another chat are not looked at. *)
Lemma get_stored_remove_other data mid c' :
  c' ≠ c →
  get_stored_pinned_messages (remove_pinned_message data c mid) c'
  = get_stored_pinned_messages data c'.
Proof.
  intros Hne. unfold get_stored_pinned_messages, remove_pinned_message.
  induction data as [|m data IH]; simpl; [done|].
  unfold same_pin at 1.
  destruct (bool_decide (chat_id m = c)) eqn:E1; simpl.
  - apply bool_decide_eq_true in E1.
    destruct (message_id m =? mid); simpl; rewrite IH; [|done].
    rewrite bool_decide_eq_false_2; [done|congruence].
  - by rewrite IH.
Qed.

Lemma get_stored_unpin_other ok stored c' : ∀ i data,
  c' ≠ c →
  get_stored_pinned_messages (unpin_stored c ok i stored data) c'
  = get_stored_pinned_messages data c'.
Proof.
  induction stored as [|s0 rest IH]; intros i data Hne; simpl; [done|].
  rewrite IH by done. destruct (ok i); [|done].
  by apply get_stored_remove_other.
Qed.

Lemma get_stored_add_other data mid url now_iso c' :
  c' ≠ c →
  get_stored_pinned_messages (add_pinned_message data c mid url now_iso) c'
  = get_stored_pinned_messages data c'.
Proof.
  intros Hne. unfold add_pinned_message.
  destruct (List.filter (same_pin c mid) data); [|done].
  unfold get_stored_pinned_messages. rewrite List.filter_app. simpl.
  rewrite bool_decide_eq_false_2 by congruence. apply app_nil_r.
Qed.

Lemma NoDup_fmap_filter {A B} (f : A → B) (p : A → bool) (l : list A) :
  NoDup (f <$> l) → NoDup (f <$> List.filter p l).
Proof.
  induction l as [|x l IH]; simpl; [done|].
  rewrite NoDup_cons. intros [Hx Hnd]. destruct (p x); [|by apply IH].
  rewrite fmap_cons. apply NoDup_cons. split; [|by apply IH].
  intros (y & Hy & Hin)%list_elem_of_fmap. apply Hx.
  apply list_elem_of_fmap. exists y. split; [done|].
  apply list_elem_of_In. apply list_elem_of_In in Hin.
  by apply filter_In in Hin as [? _].
Qed.

Lemma unpin_stored_NoDup ok stored : ∀ i data,
  NoDup (pin_key <$> data) →
  NoDup (pin_key <$> unpin_stored c ok i stored data).
Proof.
  induction stored as [|s0 rest IH]; intros i data Hnd; simpl; [done|].
  apply IH. destruct (ok i); [|done]. by apply NoDup_fmap_filter.
Qed.

Lemma add_pinned_message_NoDup data mid url now_iso :
  NoDup (pin_key <$> data) →
  NoDup (pin_key <$> add_pinned_message data c mid url now_iso).
Proof.
  intros Hnd. unfold add_pinned_message.
  destruct (List.filter (same_pin c mid) data) as [|x l] eqn:E; [|done].
  rewrite fmap_app. apply NoDup_app. split; [done|]. split.
  - intros k (m & -> & Hm)%list_elem_of_fmap [Hk|[]%elem_of_nil]%elem_of_cons.
    assert (Hf : In m (List.filter (same_pin c mid) data)).
    { apply filter_In. split; [by apply list_elem_of_In|].
      apply same_pin_spec. unfold pin_key in Hk. simpl in Hk.
      by injection Hk as -> ->. }
    rewrite E in Hf. destruct Hf.
  - simpl. apply NoDup_singleton.
Qed.

End PinsMore.

(** X11.  A publication for one chat leaves the stored records of every
    other chat as they are, whatever Telegram answers. *)
Theorem publication_keeps_other_chats data c c' o :
  c' ≠ c →
  get_stored_pinned_messages (_send_report_with_pin data c o).1 c'
  = get_stored_pinned_messages data c'.
Proof.
  intros Hne. unfold _send_report_with_pin.
  destruct (sent_id o) as [mid|]; simpl.
  - destruct (pin_ok o); simpl.
    + rewrite get_stored_add_other by done. by apply get_stored_unpin_other.
    + by apply get_stored_unpin_other.
  - by apply get_stored_unpin_other.
Qed.

Lemma publication_keeps_other_chats_witness :
  get_stored_pinned_messages
    (_send_report_with_pin [SamplePins.rec10] "-100777"
       (SamplePins.all_ok 20 "2024-01-03T08:00:00")).1 SamplePins.chat
  = [SamplePins.rec10].
Proof.
  rewrite publication_keeps_other_chats; [by vm_compute|].
  intros H. discriminate H.
Defined.

(** X12.  The store never holds two records with the same chat and message
    id: a document without such a pair stays without one through any
    sequence of publications. *)
Theorem publications_keep_keys_unique data c calls :
  NoDup (pin_key <$> data) →
  NoDup (pin_key <$> publish_all data c calls).
Proof.
  revert data. induction calls as [|o calls IH]; intros data Hnd; simpl; [done|].
  apply IH. unfold _send_report_with_pin.
  pose proof (unpin_stored_NoDup c (unpin_ok o)
                (get_stored_pinned_messages data c) 0 data Hnd) as H1.
  destruct (sent_id o) as [mid|]; simpl; [|done].
  destruct (pin_ok o); simpl; [|done].
  by apply add_pinned_message_NoDup.
Qed.

Lemma publications_keep_keys_unique_witness :
  NoDup (pin_key <$> publish_all [SamplePins.rec10] SamplePins.chat
           [SamplePins.unpin_fails 10 "2024-01-02T08:00:00";
            SamplePins.unpin_fails 11 "2024-01-03T08:00:00"]).
Proof.
  apply publications_keep_keys_unique. apply NoDup_singleton.
Defined.

(** X13.  A publication records nothing but the message it sent and pinned:
    every record stored afterwards was stored before or is the record of the
    new message, and the latter only when both the send and the pin
    succeeded. *)
Theorem publication_adds_only_the_pinned_message data c o msg :
  In msg (_send_report_with_pin data c o).1 →
  In msg data
  ∨ ∃ mid, sent_id o = Some mid ∧ pin_ok o = true
           ∧ msg = {| chat_id := c; message_id := mid; pinned_at := stamp o;
                      message_url := message_url_of c mid |}.
Proof.
  unfold _send_report_with_pin.
  destruct (sent_id o) as [mid|]; simpl.
  - destruct (pin_ok o); simpl.
    + intros [H|H]%add_pinned_message_cases.
      * left. by apply unpin_stored_subset in H.
      * right. by exists mid.
    + intros H. left. by apply unpin_stored_subset in H.
  - intros H. left. by apply unpin_stored_subset in H.
Qed.

Lemma publication_adds_only_the_pinned_message_witness :
  In SamplePins.rec10
    (_send_report_with_pin [] SamplePins.chat
       (SamplePins.all_ok 10 "2024-01-01T08:00:00")).1
  ∧ pin_ok (SamplePins.all_ok 10 "2024-01-01T08:00:00") = true.
Proof.
  assert (Hin : In SamplePins.rec10
    (_send_report_with_pin [] SamplePins.chat
       (SamplePins.all_ok 10 "2024-01-01T08:00:00")).1) by (by left).
  split; [done|].
  destruct (publication_adds_only_the_pinned_message _ _ _ _ Hin)
    as [[]|(mid & _ & Hp & _)].
  exact Hp.
Defined.

(** X14.  Unpinning after pinning restores the document: when no record
    with the chat and message id is stored, adding one and removing it again
    gives back the document; and after a removal no record with that chat
    and message id is left. *)
Theorem remove_after_add_restores data c mid url now_iso :
  (∀ msg, In msg data → ¬ (chat_id msg = c ∧ message_id msg = mid)) →
  remove_pinned_message (add_pinned_message data c mid url now_iso) c mid = data
  ∧ ∀ data' msg, In msg (remove_pinned_message data' c mid) →
      ¬ (chat_id msg = c ∧ message_id msg = mid).
Proof.
  intros Hfresh. split.
  - assert (Hf : List.filter (same_pin c mid) data = []).
    { destruct (List.filter (same_pin c mid) data) as [|x l] eqn:E; [done|].
      assert (Hx : In x (List.filter (same_pin c mid) data)) by (rewrite E; by left).
      apply filter_In in Hx as [Hin Hx]. apply same_pin_spec in Hx.
      by destruct (Hfresh x Hin). }
    unfold add_pinned_message. rewrite Hf.
    unfold remove_pinned_message. rewrite List.filter_app. simpl.
    assert (Hs : same_pin c mid {| chat_id := c; message_id := mid;
                pinned_at := now_iso; message_url := url |} = true)
      by (by apply same_pin_spec).
    rewrite Hs. simpl. rewrite app_nil_r.
    apply forallb_filter_id. apply forallb_forall. intros x Hin.
    apply negb_true_iff. destruct (same_pin c mid x) eqn:E; [|done].
    apply same_pin_spec in E. by destruct (Hfresh x Hin).
  - intros data' msg Hin Hk. unfold remove_pinned_message in Hin.
    apply filter_In in Hin as [_ Hin]. apply negb_true_iff in Hin.
    apply (same_pin_spec c) in Hk. congruence.
Qed.

Lemma remove_after_add_restores_witness :
  remove_pinned_message
    (add_pinned_message [SamplePins.rec10] SamplePins.chat 11
       "https://t.me/c/1234/11" "2024-01-02T08:00:00") SamplePins.chat 11
  = [SamplePins.rec10].
Proof.
  refine (proj1 (remove_after_add_restores [SamplePins.rec10] SamplePins.chat 11
                   "https://t.me/c/1234/11" "2024-01-02T08:00:00" _)).
  intros msg [<-|[]] [_ H]. discriminate H.
Defined.

(** X15.  [/clear_stored] sent from the peer chat removes every record of
    that chat and no record of another chat; sent from any other chat it
    changes nothing. *)
Theorem clear_stored_clears_the_peer_chat peer_id data c :
  (c = peer_id →
     get_stored_pinned_messages (clear_stored peer_id data c) c = []
     ∧ ∀ c', c' ≠ c →
         get_stored_pinned_messages (clear_stored peer_id data c) c'
         = get_stored_pinned_messages data c')
  ∧ (c ≠ peer_id → clear_stored peer_id data c = data).
Proof.
  unfold clear_stored. split.
  - intros ->. rewrite bool_decide_eq_true_2 by done.
    unfold get_stored_pinned_messages. split.
    + induction data as [|m data IH]; simpl; [done|].
      destruct (bool_decide (chat_id m = peer_id)) eqn:E; simpl; [done|].
      by rewrite E.
    + intros c' Hne. induction data as [|m data IH]; simpl; [done|].
      destruct (bool_decide (chat_id m = peer_id)) eqn:E; simpl.
      * apply bool_decide_eq_true in E.
        rewrite bool_decide_eq_false_2 by congruence. done.
      * by rewrite IH.
  - intros Hne. by rewrite bool_decide_eq_false_2.
Qed.

Lemma clear_stored_clears_the_peer_chat_witness :
  get_stored_pinned_messages
    (clear_stored SamplePins.chat [SamplePins.rec10; SamplePins.rec11]
       SamplePins.chat) SamplePins.chat = [].
Proof.
  exact (proj1 (proj1 (clear_stored_clears_the_peer_chat SamplePins.chat
           [SamplePins.rec10; SamplePins.rec11] SamplePins.chat) eq_refl)).
Defined.

(** The order on [pinned_at] strings. *)
Lemma string_ltb_trans (a b d : string) :
  String.ltb a b = true → String.ltb b d = true → String.ltb a d = true.
Proof.
  unfold String.ltb. intros H1 H2.
  destruct (String.compare a b) eqn:E1; try done.
  destruct (String.compare b d) eqn:E2; try done.
  apply String_as_OT.cmp_lt in E1, E2.
  pose proof (String_as_OT.lt_trans _ _ _ E1 E2) as H.
  apply String_as_OT.cmp_lt in H. unfold String_as_OT.cmp in H. by rewrite H.
Qed.

Lemma string_ltb_le_trans (a b d : string) :
  String.ltb a b = true → String.ltb d b = false → String.ltb a d = true.
Proof.
  intros H1 H2. unfold String.ltb in H2.
  destruct (String.compare d b) eqn:E; try done.
  - apply String.compare_eq_iff in E. by subst.
  - rewrite String.compare_antisym in E.
    destruct (String.compare b d) eqn:E2; try done.
    apply (string_ltb_trans a b d); [done|]. unfold String.ltb. by rewrite E2.
Qed.

(** [latest_from] returns one of the records, and none of them has a later
    [pinned_at]. *)
Lemma latest_from_max rest : ∀ best,
  let x := latest_from best rest in
  (x = best ∨ In x rest)
  ∧ String.ltb (pinned_at x) (pinned_at best) = false
  ∧ ∀ y, In y rest → String.ltb (pinned_at x) (pinned_at y) = false.
Proof.
  induction rest as [|x' r IH]; intros best; simpl.
  - split; [by left|]. split; [|by intros ? []].
    unfold String.ltb.
    destruct (String.compare (pinned_at best) (pinned_at best)) eqn:E; try done.
    pose proof (String.compare_antisym (pinned_at best) (pinned_at best)) as H.
    rewrite E in H. discriminate H.
  - destruct (String.ltb (pinned_at best) (pinned_at x')) eqn:Hsw.
    + destruct (IH x') as (Hin & Hx' & Hr).
      split; [destruct Hin as [->|Hin]; right; [by left|by right]|].
      split.
      * destruct (String.ltb (pinned_at (latest_from x' r)) (pinned_at best)) eqn:E;
          [|done].
        pose proof (string_ltb_trans _ _ _ E Hsw). congruence.
      * intros y [<-|Hy]; [done|by apply Hr].
    + destruct (IH best) as (Hin & Hb & Hr).
      split; [destruct Hin as [->|Hin]; [by left|right; by right]|].
      split; [done|].
      intros y [<-|Hy]; [|by apply Hr].
      destruct (String.ltb (pinned_at (latest_from best r)) (pinned_at x')) eqn:E;
        [|done].
      pose proof (string_ltb_le_trans _ _ _ E Hsw). congruence.
Qed.

(** X16.  The previous-report link is the url of a stored record of the
    chat with the greatest [pinned_at]; without a stored record of the chat
    it is empty. *)
Theorem last_report_url_is_latest data c :
  (get_stored_pinned_messages data c = [] → get_last_report_url data c = "")
  ∧ (get_stored_pinned_messages data c ≠ [] →
       ∃ r, In r (get_stored_pinned_messages data c)
         ∧ get_last_report_url data c = message_url r
         ∧ ∀ r', In r' (get_stored_pinned_messages data c) →
             String.ltb (pinned_at r) (pinned_at r') = false).
Proof.
  unfold get_last_report_url.
  destruct (get_stored_pinned_messages data c) as [|first rest]; [by split|].
  split; [done|]. intros _.
  destruct (latest_from_max rest first) as (Hin & Hf & Hr).
  exists (latest_from first rest). split; [|split; [done|]].
  - destruct Hin as [->|Hin]; [by left|by right].
  - intros r' [<-|Hr']; [done|by apply Hr].
Qed.

Lemma last_report_url_is_latest_witness :
  get_last_report_url [SamplePins.rec11; SamplePins.rec10] "-100777" = "".
Proof.
  by apply (proj1 (last_report_url_is_latest
                     [SamplePins.rec11; SamplePins.rec10] "-100777")).
Defined.

(** X17.  The chain of reports: after a publication whose unpins, send and
    pin all succeed, the previous-report url of the chat is the url of the
    message just sent, so the next report ends with the link to it. *)
Theorem next_report_links_to_this_one previous_link data c o mid message :
  (∀ j, unpin_ok o j = true) →
  sent_id o = Some mid →
  pin_ok o = true →
  let data' := (_send_report_with_pin data c o).1 in
  get_last_report_url data' c = message_url_of c mid
  ∧ report_text previous_link data' c message
    = message ++ previous_link (message_url_of c mid).
Proof.
  intros Hok Hs Hp data'.
  assert (Hst : get_stored_pinned_messages data' c
    = [{| chat_id := c; message_id := mid; pinned_at := stamp o;
          message_url := message_url_of c mid |}]).
  { unfold data', _send_report_with_pin. rewrite Hs, Hp. simpl.
    apply add_pinned_message_fresh. by apply unpin_stored_clears. }
  assert (Hurl : get_last_report_url data' c = message_url_of c mid).
  { unfold get_last_report_url. by rewrite Hst. }
  split; [done|]. unfold report_text. rewrite Hurl.
  by rewrite bool_decide_eq_false_2.
Qed.

Lemma next_report_links_to_this_one_witness :
  get_last_report_url
    (_send_report_with_pin [SamplePins.rec10] SamplePins.chat
       (SamplePins.all_ok 11 "2024-01-02T08:00:00")).1 SamplePins.chat
  = "https://t.me/c/1234/11".
Proof.
  refine (proj1 (next_report_links_to_this_one (λ u, u) [SamplePins.rec10]
                   SamplePins.chat (SamplePins.all_ok 11 "2024-01-02T08:00:00")
                   11 "" _ _ _)); done.
Defined.

(** * Properties of [send_message] *)

Lemma send_loop_first_success try max_retries m : ∀ k attempt remaining,
  (∀ j, attempt ≤ j < attempt + k → try j = None)%nat →
  try (attempt + k)%nat = Some m →
  (k < remaining)%nat →
  (attempt + remaining = max_retries)%nat →
  ∃ acts, send_loop try max_retries attempt remaining = (Some m, acts)
    ∧ attempts_of acts = S k ∧ sleeps_of acts = k.
Proof.
  induction k as [|k IH]; intros attempt remaining Hfail Hok Hlt Hsum.
  - destruct remaining as [|r]; [lia|]. simpl.
    rewrite Nat.add_0_r in Hok. rewrite Hok. by eexists.
  - destruct remaining as [|r]; [lia|]. simpl.
    rewrite (Hfail attempt) by lia.
    destruct (IH (S attempt) r) as (acts & -> & Ha & Hs).
    + intros j Hj. apply Hfail. lia.
    + by replace (S attempt + k)%nat with (attempt + S k)%nat by lia.
    + lia.
    + lia.
    + assert (Hb : (attempt <? max_retries - 1)%nat = true)
        by (apply Nat.ltb_lt; lia).
      rewrite Hb. eexists. split; [done|].
      unfold attempts_of, sleeps_of in *. simpl. by rewrite Ha, Hs.
Qed.

Lemma send_loop_exhausted try max_retries : ∀ remaining attempt,
  (∀ j, attempt ≤ j < attempt + remaining → try j = None)%nat →
  (attempt + remaining = max_retries)%nat →
  ∃ acts, send_loop try max_retries attempt remaining = (None, acts)
    ∧ attempts_of acts = remaining ∧ sleeps_of acts = (remaining - 1)%nat.
Proof.
  induction remaining as [|r IH]; intros attempt Hfail Hsum; simpl.
  - by eexists.
  - rewrite (Hfail attempt) by lia.
    destruct (IH (S attempt)) as (acts & -> & Ha & Hs).
    + intros j Hj. apply Hfail. lia.
    + lia.
    + unfold attempts_of, sleeps_of in *.
      destruct (attempt <? max_retries - 1)%nat eqn:Hb.
      * apply Nat.ltb_lt in Hb. eexists. split; [done|]. simpl.
        rewrite Ha, Hs. split; lia.
      * apply Nat.ltb_ge in Hb. eexists. split; [done|]. simpl.
        rewrite Ha, Hs. split; lia.
Qed.

(** X18.  [send_message] returns the message of the first attempt that
    succeeds within [max_retries]; when that is attempt number [i] (from 0)
    it has called the client [i + 1] times and slept [i] times five seconds,
    and it makes no further call. *)
Theorem send_message_first_success try max_retries i m :
  (i < max_retries)%nat →
  (∀ j, j < i → try j = None)%nat →
  try i = Some m →
  ∃ acts, send_message try max_retries = (Some m, acts)
    ∧ attempts_of acts = S i ∧ sleeps_of acts = i.
Proof.
  intros Hi Hfail Hok. unfold send_message.
  apply (send_loop_first_success try max_retries m i 0 max_retries);
    [intros j Hj; apply Hfail; lia|done|done|done].
Qed.

Lemma send_message_first_success_witness :
  ∃ acts, send_message SampleSend.third_time 10 = (Some 42, acts)
    ∧ attempts_of acts = 3%nat ∧ sleeps_of acts = 2%nat.
Proof.
  apply (send_message_first_success SampleSend.third_time 10 2 42).
  - lia.
  - intros j Hj. unfold SampleSend.third_time.
    by rewrite (proj2 (Nat.ltb_lt j 2) Hj).
  - reflexivity.
Defined.

(** X19.  When every one of the [max_retries] attempts fails,
    [send_message] returns [None] after exactly [max_retries] calls and
    [max_retries - 1] sleeps: it does not sleep after the last failure, and
    with [max_retries = 0] it does nothing. *)
Theorem send_message_gives_up try max_retries :
  (∀ j, j < max_retries → try j = None)%nat →
  ∃ acts, send_message try max_retries = (None, acts)
    ∧ attempts_of acts = max_retries
    ∧ sleeps_of acts = (max_retries - 1)%nat.
Proof.
  intros Hfail. unfold send_message.
  apply send_loop_exhausted; [intros j Hj; apply Hfail; lia|done].
Qed.

Lemma send_message_gives_up_witness :
  ∃ acts, send_message SampleSend.never 10 = (None, acts)
    ∧ attempts_of acts = 10%nat ∧ sleeps_of acts = 9%nat.
Proof. by apply (send_message_gives_up SampleSend.never 10). Defined.

(** * Properties of the long-running tracking *)

Section Tracking.

Variable cfg : Config.
Variable board_id : string.

Lemma track_card_frame list_names now_iso states card (k : string) :
  k ≠ card_key board_id (card_id card) →
  track_card cfg board_id list_names now_iso states card !! k = states !! k.
Proof.
  intros Hne. unfold track_card.
  destruct (is_in_progress cfg list_names card);
    destruct (states !! card_key board_id (card_id card)); try done.
  - by rewrite lookup_insert_ne.
  - by rewrite lookup_delete_ne.
Qed.

(** A tracked card that stays in progress keeps its entry. *)
Lemma track_cards_keeps list_names now_iso cid e cards : ∀ states,
  states !! card_key board_id cid = Some e →
  (∀ card, card ∈ cards → card_id card = cid →
     is_in_progress cfg list_names card = true) →
  foldl (track_card cfg board_id list_names now_iso) states cards
    !! card_key board_id cid = Some e.
Proof.
  induction cards as [|c rest IH]; intros states Hst Hall; simpl; [done|].
  apply IH; [|intros card Hin; apply Hall; by right].
  destruct (decide (card_id c = cid)) as [Heq|Hne].
  - unfold track_card. rewrite (Hall c) by (by left || done).
    rewrite Heq, Hst. done.
  - rewrite track_card_frame; [done|].
    intros Hk. by apply card_key_inj in Hk.
Qed.

(** An untracked card observed in progress gets an entry stamped with the
    time of the update. *)
Lemma track_cards_starts list_names now_iso cid cards : ∀ states,
  states !! card_key board_id cid = None →
  (∃ card, card ∈ cards ∧ card_id card = cid) →
  (∀ card, card ∈ cards → card_id card = cid →
     is_in_progress cfg list_names card = true) →
  ∃ e, foldl (track_card cfg board_id list_names now_iso) states cards
         !! card_key board_id cid = Some e
    ∧ started_at e = now_iso ∧ pe_board_id e = board_id.
Proof.
  induction cards as [|c rest IH]; intros states Hst Hex Hall; simpl.
  - destruct Hex as (card & Hin & _). by apply elem_of_nil in Hin.
  - assert (Hrest : ∀ card, card ∈ rest → card_id card = cid →
              is_in_progress cfg list_names card = true)
      by (intros card Hin; apply Hall; by right).
    destruct (decide (card_id c = cid)) as [Heq|Hne].
    + exists {| started_at := now_iso; pe_board_id := board_id;
                pe_card_name := card_name c |}.
      split; [|done].
      apply track_cards_keeps; [|done].
      unfold track_card. rewrite (Hall c) by (by left || done).
      rewrite Heq, Hst. apply lookup_insert_eq.
    + apply IH; [|  |done].
      * rewrite track_card_frame; [done|].
        intros Hk. by apply card_key_inj in Hk.
      * destruct Hex as (card & Hin & Hid). exists card. split; [|done].
        apply elem_of_cons in Hin as [->|Hin]; done.
Qed.

(** A card observed outside the in-progress lists has no entry
    afterwards. *)
Lemma track_cards_stops list_names now_iso cid cards : ∀ states,
  (∃ card, card ∈ cards ∧ card_id card = cid) →
  (∀ card, card ∈ cards → card_id card = cid →
     is_in_progress cfg list_names card = false) →
  foldl (track_card cfg board_id list_names now_iso) states cards
    !! card_key board_id cid = None.
Proof.
  assert (Hnone : ∀ cards states,
    states !! card_key board_id cid = None →
    (∀ card, card ∈ cards → card_id card = cid →
       is_in_progress cfg list_names card = false) →
    foldl (track_card cfg board_id list_names now_iso) states cards
      !! card_key board_id cid = None).
  { clear cards. induction cards as [|c rest IH]; intros states Hst Hall; simpl; [done|].
    apply IH; [|intros card Hin; apply Hall; by right].
    destruct (decide (card_id c = cid)) as [Heq|Hne].
    - unfold track_card. rewrite (Hall c) by (by left || done).
      by rewrite Heq, Hst.
    - rewrite track_card_frame; [done|].
      intros Hk. by apply card_key_inj in Hk. }
  induction cards as [|c rest IH]; intros states Hex Hall; simpl.
  - destruct Hex as (card & Hin & _). by apply elem_of_nil in Hin.
  - assert (Hrest : ∀ card, card ∈ rest → card_id card = cid →
              is_in_progress cfg list_names card = false)
      by (intros card Hin; apply Hall; by right).
    destruct (decide (card_id c = cid)) as [Heq|Hne].
    + apply Hnone; [|done].
      unfold track_card. rewrite (Hall c) by (by left || done). rewrite Heq.
      destruct (states !! card_key board_id cid) eqn:E; [|done].
      apply lookup_delete_eq.
    + apply IH; [|done].
      destruct Hex as (card & Hin & Hid). exists card. split; [|done].
      apply elem_of_cons in Hin as [->|Hin]; done.
Qed.

Lemma track_polls_keeps cid e polls : ∀ states,
  states !! card_key board_id cid = Some e →
  Forall (λ p, stays_in_progress cfg cid p.2) polls →
  track_polls cfg board_id polls states !! card_key board_id cid = Some e.
Proof.
  induction polls as [|p rest IH]; intros states Hst Hall; simpl; [done|].
  apply Forall_cons in Hall as [Hp Hall].
  apply IH; [|done]. by apply track_cards_keeps.
Qed.

End Tracking.

(** X20.  The clock of a card starts once.  A card without an entry that an
    update at time [t0] observes in an in-progress list gets an entry with
    [started_at = t0], and later updates that observe it in an in-progress
    list, whatever their time, leave that entry as it is. *)
Theorem progress_clock_starts_once cfg board_id cid t0 snap later states :
  states !! card_key board_id cid = None →
  (∃ card, card ∈ snap_cards snap ∧ card_id card = cid) →
  stays_in_progress cfg cid snap →
  Forall (λ p, stays_in_progress cfg cid p.2) later →
  ∃ e, track_board cfg board_id t0 snap states
         !! card_key board_id cid = Some e
    ∧ started_at e = t0
    ∧ track_polls cfg board_id later (track_board cfg board_id t0 snap states)
        !! card_key board_id cid = Some e.
Proof.
  intros Hst Hex Hin Hlater.
  destruct (track_cards_starts cfg board_id (list_names_of (snap_lists snap))
              t0 cid (snap_cards snap) states Hst Hex Hin) as (e & He & Ht & _).
  exists e. split; [done|]. split; [done|].
  by apply track_polls_keeps.
Qed.

Lemma progress_clock_starts_once_witness :
  track_polls Sample.cfg "b1"
    [("2024-01-03T08:00:00", SampleTrack.snap_doing);
     ("2024-01-04T08:00:00", SampleTrack.snap_doing)]
    (track_board Sample.cfg "b1" "2024-01-02T08:00:00" SampleTrack.snap_doing ∅)
    !! card_key "b1" "c1"
  = Some (SampleTrack.entry "2024-01-02T08:00:00").
Proof.
  assert (Hs : stays_in_progress Sample.cfg "c1" SampleTrack.snap_doing).
  { intros card Hin _. apply list_elem_of_singleton in Hin as ->. by vm_compute. }
  destruct (progress_clock_starts_once Sample.cfg "b1" "c1" "2024-01-02T08:00:00"
              SampleTrack.snap_doing
              [("2024-01-03T08:00:00", SampleTrack.snap_doing);
               ("2024-01-04T08:00:00", SampleTrack.snap_doing)] ∅)
    as (e & He & _ & Hl).
  - apply lookup_empty.
  - exists Sample.card_doing. split; [by left|done].
  - exact Hs.
  - by repeat constructor.
  - rewrite Hl, <- He. by vm_compute.
Defined.

(** X21.  Leaving the in-progress lists stops the clock: after an update
    that observes the card outside every in-progress list the card has no
    entry, whatever was stored before; if a later update observes it in
    progress again, the clock restarts at the time of that update. *)
Theorem progress_clock_stops_and_restarts cfg board_id cid t1 t2 snap1 snap2 states :
  (∃ card, card ∈ snap_cards snap1 ∧ card_id card = cid) →
  (∀ card, card ∈ snap_cards snap1 → card_id card = cid →
     is_in_progress cfg (list_names_of (snap_lists snap1)) card = false) →
  (∃ card, card ∈ snap_cards snap2 ∧ card_id card = cid) →
  stays_in_progress cfg cid snap2 →
  let states1 := track_board cfg board_id t1 snap1 states in
  states1 !! card_key board_id cid = None
  ∧ ∃ e, track_board cfg board_id t2 snap2 states1
           !! card_key board_id cid = Some e
      ∧ started_at e = t2.
Proof.
  intros Hex1 Hout Hex2 Hin states1.
  assert (H1 : states1 !! card_key board_id cid = None)
    by (by apply track_cards_stops).
  split; [done|].
  destruct (track_cards_starts cfg board_id (list_names_of (snap_lists snap2))
              t2 cid (snap_cards snap2) states1 H1 Hex2 Hin) as (e & He & Ht & _).
  by exists e.
Qed.

Lemma progress_clock_stops_and_restarts_witness :
  track_board Sample.cfg "b1" "2024-01-05T08:00:00" SampleTrack.snap_done
    {[ card_key "b1" "c1" := SampleTrack.entry "2024-01-02T08:00:00" ]}
    !! card_key "b1" "c1" = None.
Proof.
  refine (proj1 (progress_clock_stops_and_restarts Sample.cfg "b1" "c1"
           "2024-01-05T08:00:00" "2024-01-06T08:00:00"
           SampleTrack.snap_done SampleTrack.snap_doing
           {[ card_key "b1" "c1" := SampleTrack.entry "2024-01-02T08:00:00" ]}
           _ _ _ _)).
  - exists Sample.card_done. split; [by left|done].
  - intros card Hin _. apply list_elem_of_singleton in Hin as ->. by vm_compute.
  - exists Sample.card_doing. split; [by left|done].
  - intros card Hin _. apply list_elem_of_singleton in Hin as ->. by vm_compute.
Defined.

(** X22.  [is_card_long_running] answers true exactly for a tracked card
    whose entry is at least three full days old, the bound included; a card
    without an entry is never long running. *)
Theorem long_running_from_three_days fromisoformat now board_id cid states :
  (states !! card_key board_id cid = None →
     is_card_long_running fromisoformat now board_id cid states
     = LongRunningIs false)
  ∧ ∀ e t, states !! card_key board_id cid = Some e →
      fromisoformat (started_at e) = Some t → tzinfo t = None →
      ∃ b, is_card_long_running fromisoformat now board_id cid states
           = LongRunningIs b
        ∧ (b = true ↔ 3 * usec_per_day ≤ wall now - wall t).
Proof.
  unfold is_card_long_running. split.
  - by intros ->.
  - intros e t -> -> ->. eexists. split; [done|].
    unfold days_between. rewrite Z.leb_le.
    assert (HD : 0 < usec_per_day) by (by vm_compute).
    rewrite (Z.mul_comm 3 usec_per_day). split.
    + intros H.
      destruct (Z_lt_le_dec (wall now - wall t) (usec_per_day * 3)) as [Hlt|]; [|done].
      apply (Z.div_lt_upper_bound _ _ _ HD) in Hlt. lia.
    + intros H. by apply Z.div_le_lower_bound.
Qed.

Lemma long_running_from_three_days_witness :
  is_card_long_running Iso.fromisoformat
    {| wall := SampleDates.at_time "2024-01-05T08:00:00"; tzinfo := None |}
    "b1" "c1"
    {[ card_key "b1" "c1" := SampleTrack.entry "2024-01-02T08:00:00" ]}
  = LongRunningIs true.
Proof.
  destruct (proj2 (long_running_from_three_days Iso.fromisoformat
             {| wall := SampleDates.at_time "2024-01-05T08:00:00"; tzinfo := None |}
             "b1" "c1"
             {[ card_key "b1" "c1" := SampleTrack.entry "2024-01-02T08:00:00" ]})
             (SampleTrack.entry "2024-01-02T08:00:00")
             {| wall := SampleDates.at_time "2024-01-02T08:00:00"; tzinfo := None |})
    as (b & -> & Hb).
  - apply lookup_singleton_eq.
  - by vm_compute.
  - reflexivity.
  - f_equal. apply Hb. by vm_compute.
Defined.

(** * Properties of the daily lists *)

Section Daily.

Variable fromisoformat : string -> option datetime.
Variable cfg : Config.

(** Once overdue, a card stays overdue as the clock advances. *)
Lemma is_card_overdue_monotone clk1 clk2 card :
  utc_now clk1 ≤ utc_now clk2 →
  local_offset clk1 = local_offset clk2 →
  is_card_overdue fromisoformat clk1 card = Ok true →
  is_card_overdue fromisoformat clk2 card = Ok true.
Proof.
  intros Hle Hoff. unfold is_card_overdue.
  destruct (present (due card)) as [s|]; [|done].
  destruct (parse_date fromisoformat s) as [d|]; [|done].
  intros [= H]. f_equal. apply Z.ltb_lt in H. apply Z.ltb_lt.
  destruct (tzinfo d); simpl in *; lia.
Qed.

Lemma is_current_card_overdue list_names clk now card :
  is_card_overdue fromisoformat clk card = Ok true →
  is_current_card fromisoformat cfg list_names clk now card = Ok false.
Proof. intros H. unfold is_current_card. by rewrite H. Qed.

Lemma overdue_cards_of_In clocks cards : ∀ i l card,
  overdue_cards_of fromisoformat clocks i cards = Ok l →
  In card l →
  In card cards ∧ ∃ j, is_card_overdue fromisoformat (clocks j) card = Ok true.
Proof.
  induction cards as [|c rest IH]; intros i l card; simpl.
  - intros [= <-] [].
  - destruct (is_card_overdue fromisoformat (clocks i) c) as [b|] eqn:E; [|done].
    destruct (overdue_cards_of fromisoformat clocks (S i) rest) as [l'|] eqn:E'; [|done].
    intros [= <-] Hin.
    destruct b.
    + destruct Hin as [<-|Hin].
      * split; [by left|by exists i].
      * destruct (IH _ _ _ E' Hin) as [H1 H2]. split; [by right|done].
    + destruct (IH _ _ _ E' Hin) as [H1 H2]. split; [by right|done].
Qed.

Lemma get_current_cards_In clocks now lists_at cards : ∀ i l card,
  get_current_cards fromisoformat cfg clocks now lists_at i cards = Ok l →
  In card l →
  In card cards
  ∧ ∃ j, is_current_card fromisoformat cfg (lists_at j) (clocks j) now card
         = Ok true.
Proof.
  induction cards as [|c rest IH]; intros i l card; simpl.
  - intros [= <-] [].
  - destruct (is_current_card fromisoformat cfg (lists_at i) (clocks i) now c)
      as [b|] eqn:E; [|done].
    destruct (get_current_cards fromisoformat cfg clocks now lists_at (S i) rest)
      as [l'|] eqn:E'; [|done].
    intros [= <-] Hin.
    destruct b.
    + destruct Hin as [<-|Hin].
      * split; [by left|by exists i].
      * destruct (IH _ _ _ E' Hin) as [H1 H2]. split; [by right|done].
    + destruct (IH _ _ _ E' Hin) as [H1 H2]. split; [by right|done].
Qed.

End Daily.

(** The overdue test reads nothing of a card but its due field. *)
Lemma is_card_overdue_due fromisoformat clk c1 c2 :
  due c1 = due c2 →
  is_card_overdue fromisoformat clk c1 = is_card_overdue fromisoformat clk c2.
Proof. intros H. unfold is_card_overdue. by rewrite H. Qed.

(** X23.  In the daily report of a board no card id appears both in the
    overdue and in the current list, and neither list holds a card of a done
    list, provided that a card has the same due date in the cards fetched by
    the report and in those fetched by [get_current_cards], that the clock
    does not run backwards between the overdue pass and [get_current_cards],
    and that the host keeps its zone. *)
Theorem daily_lists_are_disjoint fromisoformat cfg list_names all_cards clocks1
    cards2 clk2 clocks2 lists_at overdue_cards current_cards :
  (∀ i j, utc_now (clocks1 i) ≤ utc_now (clocks2 j)
          ∧ local_offset (clocks1 i) = local_offset (clocks2 j)) →
  (∀ c1 c2, In c1 all_cards → In c2 cards2 →
     card_id c1 = card_id c2 → due c1 = due c2) →
  daily_board_lists fromisoformat cfg list_names all_cards clocks1
    cards2 clk2 clocks2 lists_at = Ok (overdue_cards, current_cards) →
  (∀ c1 c2, In c1 overdue_cards → In c2 current_cards →
     card_id c1 ≠ card_id c2)
  ∧ (∀ card, In card overdue_cards ∨ In card current_cards →
       _is_card_done cfg card list_names = false).
Proof.
  intros Hclk Hsame. unfold daily_board_lists.
  destruct (overdue_cards_of fromisoformat clocks1 0 _) as [ov|] eqn:Eo; [|done].
  destruct (get_current_cards fromisoformat cfg clocks2 _ lists_at 0 cards2)
    as [cur|] eqn:Ec; [|done].
  intros [= <- <-]. split.
  - intros c1 c2 Hov Hcur Hid.
    apply (overdue_cards_of_In _ _ _ _ _ _ Eo) in Hov as [Hin1 [i Hi]].
    apply filter_In in Hin1 as [Hin1 _].
    apply filter_In in Hcur as [Hcur _].
    apply (get_current_cards_In _ _ _ _ _ _ _ _ _ Ec) in Hcur as [Hin2 [j Hj]].
    destruct (Hclk i j) as [Hle Hoff].
    rewrite (is_card_overdue_due fromisoformat _ c1 c2
               (Hsame c1 c2 Hin1 Hin2 Hid)) in Hi.
    pose proof (is_card_overdue_monotone fromisoformat _ _ c2 Hle Hoff Hi) as H2.
    rewrite (is_current_card_overdue fromisoformat cfg _ _ _ _ H2) in Hj.
    discriminate Hj.
  - intros card [Hov|Hcur].
    + apply (overdue_cards_of_In _ _ _ _ _ _ Eo) in Hov as [Hin _].
      apply filter_In in Hin as [_ Hd]. by apply negb_true_iff in Hd.
    + apply filter_In in Hcur as [_ Hd]. by apply negb_true_iff in Hd.
Qed.

Lemma daily_lists_are_disjoint_witness :
  card_id SampleDaily.card_overdue ≠ card_id SampleDaily.card_started.
Proof.
  refine (proj1 (daily_lists_are_disjoint Iso.fromisoformat Sample.cfg
           (list_names_of Sample.lists)
           [SampleDaily.card_overdue; SampleDaily.card_started; Sample.card_done]
           (λ _, SampleDaily.clk)
           [SampleDaily.card_overdue; SampleDaily.card_started; Sample.card_done]
           SampleDaily.clk (λ _, SampleDaily.clk)
           (λ _, list_names_of Sample.lists)
           [SampleDaily.card_overdue] [SampleDaily.card_started] _ _ _)
          SampleDaily.card_overdue SampleDaily.card_started _ _).
  - intros _ _. split; [lia|done].
  - intros c1 c2 H1 H2 Hid.
    destruct H1 as [<-|[<-|[<-|[]]]]; destruct H2 as [<-|[<-|[<-|[]]]];
      done || discriminate Hid.
  - by vm_compute.
  - by left.
  - by left.
Defined.

(** X24.  In the personal task list a start date that cannot be read is
    not treated like a missing one.  On a host whose zone offset is the one
    of the due timestamp (a host in UTC for the timestamps Trello sends),
    for a card that is not done and not overdue, in an in-progress list,
    whose due instant is four days or more after the present instant: with a
    present but unreadable start field the card is Current, while the same
    card without the start field is Future. *)
Theorem unreadable_start_stays_current fromisoformat cfg list_names
    clk1 clk2 card s d due_dt off :
  matches_any (done_list_names cfg) (list_name_of list_names card) = false →
  matches_any (in_progress_list_names cfg) (list_name_of list_names card) = true →
  is_card_overdue fromisoformat clk1 card = Ok false →
  present (start card) = Some s →
  parse_date fromisoformat s = None →
  present (due card) = Some d →
  parse_date fromisoformat d = Some due_dt →
  tzinfo due_dt = Some off →
  local_offset clk2 = off →
  4 * usec_per_day ≤ (wall due_dt - off) - utc_now clk2 →
  categorize_user_card fromisoformat cfg list_names clk1 clk2 card = Ok Current
  ∧ categorize_user_card fromisoformat cfg list_names clk1 clk2
      (without_start card) = Ok Future.
Proof.
  intros Hnd Hip Hov Hs Hp Hd Hpd Htz Hoff Hfar. split.
  - unfold categorize_user_card, should_be_current.
    by rewrite Hnd, Hov, Hip, Hs, Hp.
  - assert (Hov' : is_card_overdue fromisoformat clk1 (without_start card)
                   = Ok false) by exact Hov.
    unfold categorize_user_card, should_be_current.
    change (list_name_of list_names (without_start card))
      with (list_name_of list_names card).
    change (present (start (without_start card))) with (@None string).
    change (due (without_start card)) with (due card).
    rewrite Hnd, Hov', Hip, Hd, Hpd.
    assert ((3 <? days_between (strip_tz due_dt) (datetime_now clk2 None)) = true)
      as ->; [|done].
    apply days_between_gt_3. simpl. lia.
Qed.

Lemma unreadable_start_stays_current_witness :
  categorize_user_card Iso.fromisoformat Sample.cfg (list_names_of Sample.lists)
    SampleDaily.clk SampleDaily.clk SampleDaily.card_bad_start = Ok Current
  ∧ categorize_user_card Iso.fromisoformat Sample.cfg (list_names_of Sample.lists)
      SampleDaily.clk SampleDaily.clk (without_start SampleDaily.card_bad_start)
    = Ok Future.
Proof.
  apply (unreadable_start_stays_current Iso.fromisoformat Sample.cfg
           (list_names_of Sample.lists) SampleDaily.clk SampleDaily.clk
           SampleDaily.card_bad_start "soon" "2024-01-12T00:00:00.000Z"
           {| wall := SampleDates.at_time "2024-01-12T00:00:00";
              tzinfo := Some 0 |} 0); by vm_compute.
Defined.

Lemma get_current_cards_raises fromisoformat cfg clocks now lists_at cards card :
  ∀ i,
  In card cards →
  (∀ j, is_current_card fromisoformat cfg (lists_at j) (clocks j) now card
        = Raise ValueError) →
  get_current_cards fromisoformat cfg clocks now lists_at i cards
  = Raise ValueError.
Proof.
  induction cards as [|c rest IH]; intros i Hin Hr; simpl; [destruct Hin|].
  destruct (is_current_card fromisoformat cfg (lists_at i) (clocks i) now c)
    as [b|[]] eqn:E; [|done].
  destruct Hin as [->|Hin]; [by rewrite Hr in E|].
  by rewrite (IH (S i) Hin Hr).
Qed.

(** X25.  One unreadable due date fails the daily lists of the whole board:
    when any card fetched by [get_current_cards], in a done list or not, has
    a present due field that cannot be read, no overdue or current list is
    produced for the board and [ValueError] reaches the report. *)
Theorem unreadable_due_fails_the_board fromisoformat cfg list_names all_cards
    clocks1 cards2 clk2 clocks2 lists_at card s :
  In card cards2 →
  present (due card) = Some s →
  parse_date fromisoformat s = None →
  daily_board_lists fromisoformat cfg list_names all_cards clocks1
    cards2 clk2 clocks2 lists_at = Raise ValueError.
Proof.
  intros Hin Hd Hp. unfold daily_board_lists.
  destruct (overdue_cards_of fromisoformat clocks1 0 _) as [ov|[]]; [|done].
  rewrite (get_current_cards_raises fromisoformat cfg clocks2 _ lists_at
             cards2 card 0 Hin); [done|].
  intros j. unfold is_current_card.
  by rewrite (is_card_overdue_rejects fromisoformat (clocks2 j) card s Hd Hp).
Qed.

Lemma unreadable_due_fails_the_board_witness :
  daily_board_lists Iso.fromisoformat Sample.cfg (list_names_of Sample.lists)
    [SampleDaily.card_started] (λ _, SampleDaily.clk)
    [SampleDaily.card_started;
     Sample.mk_card "L-done" [] (Some "next friday") None None]
    SampleDaily.clk (λ _, SampleDaily.clk) (λ _, list_names_of Sample.lists)
  = Raise ValueError.
Proof.
  apply (unreadable_due_fails_the_board Iso.fromisoformat Sample.cfg
           (list_names_of Sample.lists) _ _ _ _ _ _
           (Sample.mk_card "L-done" [] (Some "next friday") None None)
           "next friday").
  - right. by left.
  - reflexivity.
  - by vm_compute.
Defined.

(** X26.  For a due date that carries a zone the overdue test compares
    instants: the card is overdue exactly when the due instant is before the
    present instant, whatever the zone of the host. *)
Theorem overdue_ignores_host_zone fromisoformat clk card s d off :
  present (due card) = Some s →
  parse_date fromisoformat s = Some d →
  tzinfo d = Some off →
  (∃ b, is_card_overdue fromisoformat clk card = Ok b
        ∧ (b = true ↔ wall d - off < utc_now clk))
  ∧ ∀ clk', utc_now clk' = utc_now clk →
      is_card_overdue fromisoformat clk' card
      = is_card_overdue fromisoformat clk card.
Proof.
  intros Hs Hp Htz. unfold is_card_overdue. rewrite Hs, Hp, Htz. simpl. split.
  - eexists. split; [done|]. rewrite Z.ltb_lt. lia.
  - intros clk' ->. done.
Qed.

Lemma overdue_ignores_host_zone_witness :
  is_card_overdue Iso.fromisoformat
    (SampleDates.west_host "2024-01-02T00:00:00") SampleDaily.card_overdue
  = is_card_overdue Iso.fromisoformat
      (SampleDates.utc_host "2024-01-02T00:00:00") SampleDaily.card_overdue.
Proof.
  refine (proj2 (overdue_ignores_host_zone Iso.fromisoformat
           (SampleDates.utc_host "2024-01-02T00:00:00") SampleDaily.card_overdue
           "2024-01-01T00:00:00.000Z"
           {| wall := SampleDates.at_time "2024-01-01T00:00:00"; tzinfo := Some 0 |}
           0 _ _ _) (SampleDates.west_host "2024-01-02T00:00:00") _);
    by vm_compute.
Defined.

(** X27.  The old pin is given up before the new report exists: when every
    unpin succeeds but the send fails, or the send succeeds and the pin
    fails, the chat is left without any stored record; the function returns
    what the send returned. *)
Theorem failed_send_or_pin_leaves_no_record data c o :
  (∀ j, unpin_ok o j = true) →
  sent_id o = None ∨ pin_ok o = false →
  get_stored_pinned_messages (_send_report_with_pin data c o).1 c = []
  ∧ (_send_report_with_pin data c o).2 = sent_id o.
Proof.
  intros Hok Hfail. unfold _send_report_with_pin.
  pose proof (unpin_stored_clears c (unpin_ok o) data Hok) as Hclr.
  destruct (sent_id o) as [mid|]; simpl; [|done].
  destruct Hfail as [?| ->]; [done|]. done.
Qed.

Lemma failed_send_or_pin_leaves_no_record_witness :
  get_stored_pinned_messages
    (_send_report_with_pin [SamplePins.rec10] SamplePins.chat
       {| unpin_ok := λ _, true; sent_id := None; pin_ok := true;
          stamp := "2024-01-02T08:00:00" |}).1 SamplePins.chat = [].
Proof.
  refine (proj1 (failed_send_or_pin_leaves_no_record [SamplePins.rec10]
           SamplePins.chat _ _ _)); [done|by left].
Defined.
